(** * PromptBuilder: reducer, prompt assembly and briefing status

    A shallow embedding of [src/prompt-builder/src/components/PromptBuilder.tsx]:
    the state reducer ([builderReducer]), the tag parsing of [updateTagList],
    the prompt assembly ([buildPrompt]), the pending and insight lists of
    [useDynamicInsights] and the completion percentage ([answerCompletion]),
    followed by the properties the specification states about them. *)

From Stdlib Require Import ZArith NArith List String Ascii Lia.
From Stdlib Require Import Floats.SpecFloat.
From stdpp Require Import base decidable countable finite list gmap fin_maps.

Local Open Scope N_scope.

(** ** JavaScript strings

    A JavaScript string is a sequence of UTF-16 code units.  A code unit is
    kept as an [N]; none of the functions below does arithmetic on one. *)

Module JS.

Definition jsstring := list N.

(** UTF-16 code units of a code point. *)
Definition utf16 (cp : N) : list N :=
  if cp <? 65536 then [cp]
  else [55296 + N.shiftr (cp - 65536) 10; 56320 + N.land (cp - 65536) 1023].

(** Reads the UTF-8 bytes of a literal of this file; [pending] continuation
    bytes are still due for the code point accumulated in [acc]. *)
Fixpoint decode (pending : nat) (acc : N) (s : string) : list N :=
  match s with
  | EmptyString => []
  | String a r =>
      let b := N_of_ascii a in
      match pending with
      | O =>
          if b <? 128 then b :: decode 0 0 r
          else if b <? 224 then decode 1 (N.land b 31) r
          else if b <? 240 then decode 2 (N.land b 15) r
          else decode 3 (N.land b 7) r
      | S O => utf16 (N.lor (N.shiftl acc 6) (N.land b 63)) ++ decode 0 0 r
      | S k => decode k (N.lor (N.shiftl acc 6) (N.land b 63)) r
      end
  end.

(** The string a source literal denotes. *)
Definition lit (s : string) : jsstring := decode 0 0 s.

(** Truthiness of a string: [Boolean(s)], [if (s)], [!s]. *)
Definition nonempty (s : jsstring) : bool :=
  match s with [] => false | _ :: _ => true end.

(** [WhiteSpace] and [LineTerminator] code units, the ones
    [String.prototype.trim] strips. *)
Definition is_space (c : N) : bool :=
  ((9 <=? c) && (c <=? 13)) || (c =? 32) || (c =? 160) || (c =? 5760)
  || ((8192 <=? c) && (c <=? 8202)) || (c =? 8232) || (c =? 8233)
  || (c =? 8239) || (c =? 8287) || (c =? 12288) || (c =? 65279).

Fixpoint trimStart (s : jsstring) : jsstring :=
  match s with
  | [] => []
  | c :: r => if is_space c then trimStart r else s
  end.

Definition trimEnd (s : jsstring) : jsstring := rev (trimStart (rev s)).

(** [s.trim()] *)
Definition trim (s : jsstring) : jsstring := trimEnd (trimStart s).

(** [s.split(sep)] for a separator of one code unit: the pieces between the
    occurrences of [sep]; the empty string gives one empty piece. *)
Fixpoint split (sep : N) (s : jsstring) : list jsstring :=
  match s with
  | [] => [[]]
  | c :: r =>
      if c =? sep then [] :: split sep r
      else match split sep r with
           | p :: ps => (c :: p) :: ps
           | [] => [[c]]
           end
  end.

(** [xs.join(sep)] on an array of strings. *)
Fixpoint join (sep : jsstring) (xs : list jsstring) : jsstring :=
  match xs with
  | [] => []
  | [x] => x
  | x :: r => x ++ sep ++ join sep r
  end.

Definition comma : N := 44.
Definition newline : jsstring := [10].

End JS.

Import JS.

(** ** Data model *)

Inductive PromptField :=
  | objective | audience | tone | format | constraints
  | inputs | context | evaluation | persona.

#[global] Instance PromptField_eq_dec : EqDecision PromptField.
Proof. solve_decision. Defined.

#[global] Program Instance PromptField_finite : Finite PromptField :=
  {| enum := [objective; audience; tone; format; constraints;
              inputs; context; evaluation; persona] |}.
Next Obligation. apply (bool_decide_unpack _). by vm_compute. Qed.
Next Obligation. intros []; apply (bool_decide_unpack _); by vm_compute. Qed.

(** ['text' | 'textarea' | 'tags' | 'select'] *)
Module QuestionType.
Inductive t := text | textarea | tags | select.
End QuestionType.

Record Question := {
  id : jsstring;
  title : jsstring;
  description : jsstring;
  field : PromptField;
  type : QuestionType.t;
  placeholder : option jsstring;
  options : option (list jsstring);
  required : option bool;
}.

(** A value of [string[] | string]. *)
Inductive FieldValue :=
  | Text (value : jsstring)
  | Tags (items : list jsstring).

#[global] Instance FieldValue_eq_dec : EqDecision FieldValue.
Proof. solve_decision. Defined.

(** [Record<PromptField, string[] | string>]: an object keyed by field.  A
    lookup of a key the object lacks is [None] (JavaScript's [undefined]). *)
Abbreviation BuilderState := (gmap PromptField FieldValue).

Inductive Action :=
  | updateField (field : PromptField) (value : jsstring)
  | updateTags (field : PromptField) (tags : list jsstring)
  | reset (payload : BuilderState).

Definition initialState : BuilderState :=
  list_to_map [
    (objective, Text []);
    (audience, Text []);
    (tone, Text []);
    (format, Text []);
    (constraints, Tags []);
    (inputs, Tags []);
    (context, Text []);
    (evaluation, Text []);
    (persona, Text [])
  ].

Definition baseQuestions : list Question := [
  {| id := lit "objective";
     title := lit "Objetivo central";
     description := lit "Qual problema ou tarefa o prompt precisa resolver? Quanto mais específico, melhor.";
     field := objective;
     type := QuestionType.textarea;
     placeholder := Some (lit "Ex.: Criar um roteiro detalhado para um vídeo educativo sobre IA generativa.");
     options := None;
     required := Some true |};
  {| id := lit "audience";
     title := lit "Público-alvo e nível";
     description := lit "Quem irá consumir o resultado? Inclua nível de conhecimento, idioma preferido e contexto cultural.";
     field := audience;
     type := QuestionType.textarea;
     placeholder := Some (lit "Ex.: Profissionais de marketing com experiência intermediária, falantes de português brasileiro.");
     options := None;
     required := Some true |};
  {| id := lit "persona";
     title := lit "Persona do assistente";
     description := lit "Defina o papel, expertise e traços do assistente que irá gerar a resposta.";
     field := persona;
     type := QuestionType.textarea;
     placeholder := Some (lit "Ex.: Especialista em storytelling com foco em marketing digital e linguagem acessível.");
     options := None;
     required := None |};
  {| id := lit "tone";
     title := lit "Tom e estilo desejados";
     description := lit "Determine o estilo de comunicação, referências e formatos de escrita preferidos.";
     field := tone;
     type := QuestionType.textarea;
     placeholder := Some (lit "Ex.: Inspirador, direto, com exemplos práticos e analogias relevantes.");
     options := None;
     required := None |};
  {| id := lit "format";
     title := lit "Formato de saída";
     description := lit "Especifique estrutura, seções obrigatórias, tamanho e formatos de entrega esperados.";
     field := format;
     type := QuestionType.textarea;
     placeholder := Some (lit "Ex.: Sumário executivo com seções: Contexto, Estratégia, Táticas, Métricas. Máx. 800 palavras.");
     options := None;
     required := None |};
  {| id := lit "inputs";
     title := lit "Informações de entrada";
     description := lit "Liste dados obrigatórios, anexos, frameworks ou fontes que a IA deve considerar.";
     field := inputs;
     type := QuestionType.tags;
     placeholder := None;
     options := None;
     required := None |};
  {| id := lit "constraints";
     title := lit "Restrições e regras";
     description := lit "Defina regras inegociáveis, padrões, formato de citação, limites ou conteúdos proibidos.";
     field := constraints;
     type := QuestionType.tags;
     placeholder := None;
     options := None;
     required := None |};
  {| id := lit "context";
     title := lit "Contexto adicional";
     description := lit "Forneça antecedentes, metas de longo prazo ou referências úteis para a geração.";
     field := context;
     type := QuestionType.textarea;
     placeholder := Some (lit "Ex.: Última campanha performou abaixo do esperado devido à baixa personalização.");
     options := None;
     required := None |};
  {| id := lit "evaluation";
     title := lit "Critérios de avaliação";
     description := lit "Defina como medir se a resposta é satisfatória: métricas, checklist ou perguntas de validação.";
     field := evaluation;
     type := QuestionType.textarea;
     placeholder := Some (lit "Ex.: Deve incluir plano de ação, exemplos concretos e KPIs mensuráveis.");
     options := None;
     required := None |}
].

(** ** The reducer and the tag parser *)

(** The [default] branch of the source's [switch] is reached by no value of
    type [Action]. *)
Definition builderReducer (state : BuilderState) (action : Action) : BuilderState :=
  match action with
  | updateField field value => <[field := Text value]> state
  | updateTags field tags => <[field := Tags tags]> state
  | reset payload => payload
  end.

(** [payload.split(',').map((item) => item.trim()).filter(Boolean)] *)
Definition parseTags (payload : jsstring) : list jsstring :=
  List.filter nonempty (map trim (split comma payload)).

Definition tagsToDisplay (value : FieldValue) : list jsstring :=
  match value with
  | Tags items => items
  | Text value => if negb (nonempty value) then [] else parseTags value
  end.

(** [updateTagList]: the state after the [updateTags] action it dispatches. *)
Definition updateTagList (field : PromptField) (payload : jsstring)
    (state : BuilderState) : BuilderState :=
  let values := parseTags payload in
  builderReducer state (updateTags field values).

(** [handleReset]: the state after the [reset] action it dispatches. *)
Definition handleReset (state : BuilderState) : BuilderState :=
  builderReducer state (reset initialState).

(** ** Reading the state as JavaScript does *)

(** [blocks.push(x)], [insights.push(x)] *)
Definition push {A} (xs : list A) (x : A) : list A := xs ++ [x].

(** Truthiness of [state.f]: [undefined] and the empty string are falsy,
    every array is truthy. *)
Definition truthy (v : option FieldValue) : bool :=
  match v with
  | None => false
  | Some (Text value) => nonempty value
  | Some (Tags _) => true
  end.

(** [`${state.f}`]: an array prints as its items joined by commas. *)
Definition toString (v : option FieldValue) : jsstring :=
  match v with
  | None => lit "undefined"
  | Some (Text value) => value
  | Some (Tags items) => join [comma] items
  end.

(** [state.f === ''] *)
Definition isEmptyString (v : option FieldValue) : bool :=
  match v with
  | Some (Text []) => true
  | _ => false
  end.

(** ** useDynamicInsights *)

Definition isRequired (question : Question) : bool :=
  match required question with
  | Some b => b
  | None => false
  end.

(** The second filter of [pending]: the field of [question] has no answer. *)
Definition isMissing (state : BuilderState) (question : Question) : bool :=
  match state !! field question with
  | Some (Tags value) => Nat.eqb (length value) 0
  | Some (Text value) => Nat.eqb (length (trim value)) 0
  | None => Nat.eqb (length (trim [])) 0
  end.

Definition pending (state : BuilderState) : list jsstring :=
  map title (List.filter (isMissing state) (List.filter isRequired baseQuestions)).

Definition formatInsight : jsstring :=
  lit "Detalhe o formato de saída para alinhar expectativas e facilitar validação.".
Definition constraintsInsight : jsstring :=
  lit "Adicione restrições ou critérios de segurança para evitar respostas incorretas.".
Definition evaluationInsight : jsstring :=
  lit "Defina critérios de avaliação para facilitar ajustes e iterações futuras.".

Definition insights (state : BuilderState) : list jsstring :=
  let insights := [] in
  let insights :=
    if truthy (state !! objective) && isEmptyString (state !! format)
    then push insights formatInsight else insights in
  let insights :=
    match state !! constraints with
    | Some (Tags []) => push insights constraintsInsight
    | _ => insights
    end in
  let insights :=
    if isEmptyString (state !! evaluation)
    then push insights evaluationInsight else insights in
  insights.

Definition useDynamicInsights (state : BuilderState) : list jsstring * list jsstring :=
  (pending state, insights state).

(** ** buildPrompt *)

Definition closingBlock : jsstring :=
  lit "Antes de responder, valide se todas as informações são suficientes. Caso falte algo, faça perguntas específicas para complementar o briefing.".

(** [items.map((item) => `- ${item}`).join('\n')] *)
Definition bulleted (items : list jsstring) : jsstring :=
  join newline (map (fun item => lit "- " ++ item) items).

(** The array [blocks] when [buildPrompt] reaches its [join]. *)
Definition promptBlocks (state : BuilderState) : list jsstring :=
  let blocks := [] in
  let blocks :=
    if truthy (state !! persona)
    then push blocks (lit "Você é " ++ toString (state !! persona) ++ lit ".")
    else blocks in
  let blocks :=
    if truthy (state !! objective)
    then push blocks (lit "Tarefa principal:" ++ newline ++ toString (state !! objective))
    else blocks in
  let blocks :=
    if truthy (state !! audience)
    then push blocks (lit "Público-alvo:" ++ newline ++ toString (state !! audience))
    else blocks in
  let blocks :=
    if truthy (state !! context)
    then push blocks (lit "Contexto:" ++ newline ++ toString (state !! context))
    else blocks in
  let blocks :=
    match state !! inputs with
    | Some (Tags (item :: items)) =>
        push blocks (lit "Considere obrigatoriamente:" ++ newline ++ bulleted (item :: items))
    | _ => blocks
    end in
  let blocks :=
    if truthy (state !! tone)
    then push blocks (lit "Tom e estilo desejados:" ++ newline ++ toString (state !! tone))
    else blocks in
  let blocks :=
    if truthy (state !! format)
    then push blocks (lit "Formato de saída:" ++ newline ++ toString (state !! format))
    else blocks in
  let blocks :=
    match state !! constraints with
    | Some (Tags (item :: items)) =>
        push blocks (lit "Restrições:" ++ newline ++ bulleted (item :: items))
    | _ => blocks
    end in
  let blocks :=
    if truthy (state !! evaluation)
    then push blocks (lit "Avaliação de qualidade:" ++ newline ++ toString (state !! evaluation))
    else blocks in
  push blocks closingBlock.

Definition buildPrompt (state : BuilderState) : jsstring :=
  join (newline ++ newline) (promptBlocks state).

(** ** answerCompletion *)

(** JavaScript numbers are IEEE 754 binary64 values. *)
Module Number.

Definition prec : Z := 53.
Definition emax : Z := 1024.

(** The number an integer literal or an array length denotes. *)
Definition ofZ (z : Z) : spec_float := binary_normalize prec emax z 0 false.

Definition div : spec_float -> spec_float -> spec_float := SFdiv prec emax.
Definition mul : spec_float -> spec_float -> spec_float := SFmul prec emax.

(** [Math.round]: the nearest integer, a tie going up; a number of
    magnitude under one half rounds to the zero of its sign. *)
Definition round (x : spec_float) : spec_float :=
  match x with
  | S754_finite s m e =>
      if (0 <=? e)%Z then x
      else
        let d := (2 ^ (- e))%Z in
        let n := if s then Z.neg m else Z.pos m in
        binary_normalize prec emax ((2 * n + d) / (2 * d))%Z 0 s
  | _ => x
  end.

End Number.

(** The filter of [answerCompletion]: the field of [question] is answered. *)
Definition isAnswered (state : BuilderState) (question : Question) : bool :=
  match state !! field question with
  | Some (Tags value) => Nat.ltb 0 (length value)
  | Some (Text value) => Nat.ltb 0 (length (trim value))
  | None => Nat.ltb 0 (length (trim []))
  end.

Definition answeredCount (state : BuilderState) : nat :=
  length (List.filter (isAnswered state) baseQuestions).

Definition answerCompletion (state : BuilderState) : spec_float :=
  let answered := answeredCount state in
  Number.round
    (Number.mul
       (Number.div (Number.ofZ (Z.of_nat answered))
                   (Number.ofZ (Z.of_nat (length baseQuestions))))
       (Number.ofZ 100)).

(** ** What the form reads off the state *)

(** The [value] of a textarea or text input:
    [typeof value === 'string' ? value : '']. *)
Definition textInputValue (value : option FieldValue) : jsstring :=
  match value with
  | Some (Text value) => value
  | _ => []
  end.

(** The [value] of a tags input: the items joined by a comma and a space,
    a string as it is, nothing otherwise. *)
Definition tagsInputValue (value : option FieldValue) : jsstring :=
  match value with
  | Some (Tags value) => join (lit ", ") value
  | Some (Text value) => value
  | None => []
  end.

(** [isRequiredMissing], which turns a question's border red. *)
Definition isRequiredMissing (state : BuilderState) (question : Question) : bool :=
  isRequired question
  && match state !! field question with
     | Some (Tags value) => Nat.eqb (length value) 0
     | Some (Text value) => negb (nonempty (trim value))
     | None => negb (nonempty (trim []))
     end.

(** [disabled={promptPreview.trim() === ''}] of the copy button. *)
Definition copyDisabled (state : BuilderState) : bool :=
  let promptPreview := buildPrompt state in
  negb (nonempty (trim promptPreview)).

(** [{promptPreview || 'As respostas serão combinadas aqui.'}] *)
Definition previewText (state : BuilderState) : jsstring :=
  let promptPreview := buildPrompt state in
  if nonempty promptPreview then promptPreview
  else lit "As respostas serão combinadas aqui.".

(** ** Well-formed states and actions *)

#[global] Instance QuestionType_eq_dec : EqDecision QuestionType.t.
Proof. solve_decision. Defined.

(** The input kind the descriptor table gives a field. *)
Definition fieldType (f : PromptField) : option QuestionType.t :=
  type <$> List.find (fun question => bool_decide (field question = f)) baseQuestions.

Definition isTagField (f : PromptField) : bool :=
  bool_decide (fieldType f = Some QuestionType.tags).

(** A text field holds a string, a tag-list field a sequence of strings. *)
Definition shapeOk (f : PromptField) (v : FieldValue) : bool :=
  match v with
  | Text _ => negb (isTagField f)
  | Tags _ => isTagField f
  end.

(** Every field has an entry. *)
Definition complete (state : BuilderState) : Prop :=
  ∀ f, is_Some (state !! f).

(** Every field has an entry of the shape of its kind. *)
Definition wellFormed (state : BuilderState) : Prop :=
  ∀ f, shapeOk f <$> state !! f = Some true.

(** An edit action of the data model: a set-text action names a text
    field, a set-tag-list action a tag-list field, a reset carries a
    well-formed state. *)
Definition validAction (action : Action) : Prop :=
  match action with
  | updateField f _ => isTagField f = false
  | updateTags f _ => isTagField f = true
  | reset payload => wellFormed payload
  end.

Definition isEmptyValue (v : FieldValue) : bool :=
  match v with
  | Text value => negb (nonempty value)
  | Tags items => match items with [] => true | _ => false end
  end.

(** ** The specification's reading

    The definitions below follow the words of the specification, field by
    field; the properties compare them with the functions above. *)

(** Steps 1 to 9 of the document assembly. *)
Definition spec_order : list PromptField :=
  [persona; objective; audience; context; inputs; tone; format; constraints; evaluation].

(** The label of a field's block. *)
Definition spec_label (f : PromptField) : jsstring :=
  match f with
  | persona => lit "Você é "
  | objective => lit "Tarefa principal:"
  | audience => lit "Público-alvo:"
  | context => lit "Contexto:"
  | inputs => lit "Considere obrigatoriamente:"
  | tone => lit "Tom e estilo desejados:"
  | format => lit "Formato de saída:"
  | constraints => lit "Restrições:"
  | evaluation => lit "Avaliação de qualidade:"
  end.

(** One bulleted line per item, in the order of the sequence. *)
Fixpoint spec_bullets (items : list jsstring) : jsstring :=
  match items with
  | [] => []
  | [item] => lit "- " ++ item
  | item :: rest => lit "- " ++ item ++ newline ++ spec_bullets rest
  end.

(** The block a value gives its field: none when the value is empty. *)
Definition spec_block (f : PromptField) (v : FieldValue) : option jsstring :=
  if isEmptyValue v then None
  else
    match v with
    | Text value =>
        match f with
        | persona => Some (spec_label f ++ value ++ lit ".")
        | _ => Some (spec_label f ++ newline ++ value)
        end
    | Tags items => Some (spec_label f ++ newline ++ spec_bullets items)
    end.

Definition spec_fieldBlock (state : BuilderState) (f : PromptField) : option jsstring :=
  state !! f ≫= spec_block f.

(** The emitted blocks: the conditional ones in order, then the closing one. *)
Definition spec_blocks (state : BuilderState) : list jsstring :=
  omap (spec_fieldBlock state) spec_order ++ [closingBlock].

(** Blocks separated by a blank line. *)
Fixpoint spec_document (blocks : list jsstring) : jsstring :=
  match blocks with
  | [] => []
  | [block] => block
  | block :: rest => block ++ [10; 10] ++ spec_document rest
  end.

(** Answered, as the completion percentage is specified: a non-empty
    string, a non-empty sequence. *)
Definition spec_answered (v : FieldValue) : bool := negb (isEmptyValue v).

(** Answered, on the trimmed string. *)
Definition trimmed_answered (v : FieldValue) : bool :=
  match v with
  | Text value => nonempty (trim value)
  | Tags items => match items with [] => false | _ => true end
  end.

(** The number of fields of the descriptor table whose value satisfies [answered]. *)
Definition spec_count (answered : FieldValue → bool) (state : BuilderState) : Z :=
  Z.of_nat (length (List.filter
    (fun question => from_option answered false (state !! field question))
    baseQuestions)).

(** [round (100 * a / r)], halves going up. *)
Definition spec_percent (a r : Z) : Z := ((200 * a + r) / (2 * r))%Z.

(** The pending titles: required, unanswered on the trimmed value, in table order. *)
Definition spec_pending (state : BuilderState) : list jsstring :=
  omap (fun question =>
          if isRequired question
             && negb (from_option trimmed_answered false (state !! field question))
          then Some (title question) else None)
       baseQuestions.

(** The three advisory rules, each on its own, in their order. *)
Definition spec_insights (objectiveText formatText : jsstring)
    (constraintItems : list jsstring) (evaluationText : jsstring) : list jsstring :=
  (if nonempty objectiveText && bool_decide (formatText = []) then [formatInsight] else [])
  ++ (if bool_decide (length constraintItems = 0%nat) then [constraintsInsight] else [])
  ++ (if bool_decide (evaluationText = []) then [evaluationInsight] else []).

(** ** Auxiliary notions *)

(** No whitespace in front. *)
Definition startsClean (s : jsstring) : Prop :=
  match s with [] => True | c :: _ => is_space c = false end.

(** A tag as [parseTags] leaves it: not empty, nothing to trim, no comma. *)
Definition cleanTag (tag : jsstring) : Prop :=
  nonempty tag = true ∧ trim tag = tag ∧ comma ∉ tag.

(** The field a set action writes. *)
Definition target (action : Action) : option PromptField :=
  match action with
  | updateField f _ => Some f
  | updateTags f _ => Some f
  | reset _ => None
  end.

(** Names the next [let] of a goal [(let x := v in b) = r]. *)
Ltac intro_let :=
  lazymatch goal with
  | |- (let x := ?v in @?f x) = ?r =>
      change (let x := v in f x = r); intro; cbv beta
  end.

(** ** Sample states *)

(** A poem is asked for, with two inputs and a format. *)
Definition poemState : BuilderState :=
  <[format := Text (lit "4 lines")]>
    (<[inputs := Tags [lit "a"; lit "b"]]>
       (<[objective := Text (lit "Write a poem")]> initialState)).

(** Only the format is filled in, with a single space. *)
Definition blankFormatState : BuilderState :=
  <[format := Text (lit " ")]> initialState.

(** Only the objective is filled in, with a single space. *)
Definition blankObjectiveState : BuilderState :=
  <[objective := Text (lit " ")]> initialState.

(** The well-formed state in which exactly the chosen rules fire. *)
Definition insightState (b1 b2 b3 : bool) : BuilderState :=
  <[objective := Text (lit "x")]>
    (<[format := Text (if b1 then [] else lit "x")]>
       (<[constraints := Tags (if b2 then [] else [lit "x"])]>
          (<[evaluation := Text (if b3 then [] else lit "x")]> initialState))).

(** Every field is answered. *)
Definition fullState : BuilderState :=
  list_to_map [
    (objective, Text (lit "Write a poem"));
    (audience, Text (lit "Children"));
    (tone, Text (lit "Playful"));
    (format, Text (lit "4 lines"));
    (constraints, Tags [lit "No rhymes"]);
    (inputs, Tags [lit "a"; lit "b"]);
    (context, Text (lit "School magazine"));
    (evaluation, Text (lit "Reads aloud well"));
    (persona, Text (lit "a poet"))
  ].

(** * Properties *)

(** ** Sanity checks of the embedding *)

Example lit_ascii : lit "a, b ,,c" = [97; 44; 32; 98; 32; 44; 44; 99].
Proof. reflexivity. Qed.

Example lit_latin : lit "Você é " = [86; 111; 99; 234; 32; 233; 32].
Proof. reflexivity. Qed.

Example trim_example : trim (lit "  a b  ") = lit "a b".
Proof. reflexivity. Qed.

Example split_example : split comma (lit "a,,b") = [lit "a"; []; lit "b"].
Proof. reflexivity. Qed.

Example join_example : join (lit ", ") [lit "a"; lit "b"; lit "c"] = lit "a, b, c".
Proof. reflexivity. Qed.

Example answerCompletion_initial : answerCompletion initialState = Number.ofZ 0.
Proof. vm_compute. reflexivity. Qed.

Example buildPrompt_initial : buildPrompt initialState = closingBlock.
Proof. vm_compute. reflexivity. Qed.

Example pending_initial :
  pending initialState = [lit "Objetivo central"; lit "Público-alvo e nível"].
Proof. vm_compute. reflexivity. Qed.

(** ** Well-formed states *)

Section WellFormed.

Variable state : BuilderState.
Hypothesis Hwf : wellFormed state.

Lemma wellFormed_complete : complete state.
Proof using Hwf.
  intros f. specialize (Hwf f). destruct (state !! f); [by eexists | discriminate].
Qed.

Lemma wellFormed_text f :
  isTagField f = false → ∃ value, state !! f = Some (Text value).
Proof using Hwf.
  intros Hf. specialize (Hwf f).
  destruct (state !! f) as [[value | items] |]; simpl in Hwf; [by eexists | congruence | discriminate].
Qed.

Lemma wellFormed_tags f :
  isTagField f = true → ∃ items, state !! f = Some (Tags items).
Proof using Hwf.
  intros Hf. specialize (Hwf f).
  destruct (state !! f) as [[value | items] |]; simpl in Hwf; [| by eexists | discriminate].
  rewrite Hf in Hwf. discriminate.
Qed.

End WellFormed.

Lemma complete_dom (state : BuilderState) :
  complete state → dom state = list_to_set (enum PromptField).
Proof.
  intros Hc. apply set_eq. intros f. rewrite elem_of_dom.
  split; [intros _; apply elem_of_list_to_set, elem_of_enum | intros _; apply Hc].
Qed.

Lemma initialState_wellFormed : wellFormed initialState.
Proof. intros []; reflexivity. Qed.

(** The reducer keeps the key set of a complete state whatever field and
    value an update names. *)
Lemma builderReducer_complete (state : BuilderState) (action : Action) :
  complete state →
  (∀ payload, action = reset payload → complete payload) →
  complete (builderReducer state action) ∧
  dom (builderReducer state action) = dom state.
Proof.
  intros Hc Hp.
  assert (Hres : complete (builderReducer state action)).
  { destruct action as [f v | f t | p]; simpl; [| | by apply Hp];
      intros g; (destruct (decide (f = g)) as [-> | Hne];
        [rewrite lookup_insert_eq; by eexists | rewrite lookup_insert_ne; [apply Hc | done]]). }
  split; [done |]. by rewrite !complete_dom.
Qed.

(** ** The reducer *)

(** C8: a reset action yields its payload whatever the state was; the reset
    the component dispatches restores the initial, all-empty state. *)
Theorem reset_yields_payload (state baseline : BuilderState) :
  builderReducer state (reset baseline) = baseline
  ∧ builderReducer state (reset initialState) = initialState
  ∧ handleReset state = initialState.
Proof. repeat split. Qed.

Lemma wellFormed_insert (state : BuilderState) f v :
  wellFormed state → shapeOk f v = true → wellFormed (<[f := v]> state).
Proof.
  intros Hwf Hv g. rewrite lookup_insert.
  destruct (decide (f = g)) as [<- | _]; [simpl; by rewrite Hv | apply Hwf].
Qed.

(** C9: on a well-formed state an edit action (a set-text action on a text
    field, a set-tag-list action on a tag-list field, a reset with a
    well-formed payload) gives a well-formed state with the same keys, and
    a set action changes the named field only. *)
Theorem builderReducer_wellFormed (state : BuilderState) (action : Action) :
  wellFormed state →
  validAction action →
  wellFormed (builderReducer state action)
  ∧ dom (builderReducer state action) = dom state
  ∧ (∀ f value, action = updateField f value →
       builderReducer state action !! f = Some (Text value)
       ∧ ∀ g, g ≠ f → builderReducer state action !! g = state !! g)
  ∧ (∀ f items, action = updateTags f items →
       builderReducer state action !! f = Some (Tags items)
       ∧ ∀ g, g ≠ f → builderReducer state action !! g = state !! g).
Proof.
  intros Hwf Hact. split; [| split; [| split]].
  - destruct action as [f v | f t | p]; simpl in *; [| | done];
      apply wellFormed_insert; simpl; try done. by rewrite Hact.
  - apply builderReducer_complete; [by apply wellFormed_complete |].
    intros p ->. by apply wellFormed_complete.
  - intros f v ->. simpl. split; [apply lookup_insert_eq |].
    intros g Hg. by rewrite lookup_insert_ne.
  - intros f t ->. simpl. split; [apply lookup_insert_eq |].
    intros g Hg. by rewrite lookup_insert_ne.
Qed.

Lemma builderReducer_wellFormed_witness :
  let action := updateField objective (lit "Write a poem") in
  wellFormed (builderReducer initialState action)
  ∧ dom (builderReducer initialState action) = dom initialState
  ∧ (∀ f value, action = updateField f value →
       builderReducer initialState action !! f = Some (Text value)
       ∧ ∀ g, g ≠ f → builderReducer initialState action !! g = initialState !! g)
  ∧ (∀ f items, action = updateTags f items →
       builderReducer initialState action !! f = Some (Tags items)
       ∧ ∀ g, g ≠ f → builderReducer initialState action !! g = initialState !! g).
Proof.
  apply (builderReducer_wellFormed initialState (updateField objective (lit "Write a poem"))).
  - intros []; reflexivity.
  - reflexivity.
Defined.

(** A set-text action on a tag-list field keeps the keys and breaks the
    shape: the data model leaves the kind to the caller. *)
Lemma builderReducer_kind_mismatch :
  complete (builderReducer initialState (updateField inputs (lit "x")))
  ∧ ¬ wellFormed (builderReducer initialState (updateField inputs (lit "x"))).
Proof.
  split.
  - apply builderReducer_complete; [apply wellFormed_complete, initialState_wellFormed |].
    intros payload Hp. discriminate Hp.
  - intros Hwf. specialize (Hwf inputs). vm_compute in Hwf. discriminate Hwf.
Qed.

(** ** Joining *)

(** Literals are compared as written, not by their code units. *)
#[local] Arguments lit : simpl never.
#[local] Opaque lit.

Lemma join_cons sep x y ys :
  join sep (x :: y :: ys) = x ++ sep ++ join sep (y :: ys).
Proof. reflexivity. Qed.

Lemma join_snoc sep xs x :
  join sep (xs ++ [x]) =
  match xs with [] => x | _ :: _ => join sep xs ++ sep ++ x end.
Proof.
  induction xs as [| a [| b r] IH]; [reflexivity | reflexivity |].
  change ((a :: b :: r) ++ [x]) with (a :: b :: (r ++ [x])).
  rewrite !join_cons. change (b :: r ++ [x]) with ((b :: r) ++ [x]).
  rewrite IH. by rewrite <- !app_assoc.
Qed.

Lemma spec_document_join blocks :
  spec_document blocks = join (newline ++ newline) blocks.
Proof.
  induction blocks as [| a [| b r] IH]; [reflexivity | reflexivity |].
  rewrite join_cons, <- IH. reflexivity.
Qed.

Lemma bulleted_spec items : bulleted items = spec_bullets items.
Proof.
  unfold bulleted.
  induction items as [| a [| b r] IH]; [reflexivity | reflexivity |].
  change (map _ (a :: b :: r)) with ((lit "- " ++ a) :: map (λ item, lit "- " ++ item) (b :: r)).
  change (map _ (b :: r)) with ((lit "- " ++ b) :: map (λ item, lit "- " ++ item) r) at 1.
  rewrite join_cons.
  change ((lit "- " ++ b) :: map _ r) with (map (λ item, lit "- " ++ item) (b :: r)).
  rewrite IH.
  change (spec_bullets (a :: b :: r)) with (lit "- " ++ a ++ newline ++ spec_bullets (b :: r)).
  by rewrite <- app_assoc.
Qed.

(** ** The compiled document *)

(** The values of the nine fields of a well-formed state. *)
Lemma wellFormed_fields (state : BuilderState) :
  wellFormed state →
  ∃ o a t fm c i cx e p,
    state !! objective = Some (Text o) ∧ state !! audience = Some (Text a)
    ∧ state !! tone = Some (Text t) ∧ state !! format = Some (Text fm)
    ∧ state !! constraints = Some (Tags c) ∧ state !! inputs = Some (Tags i)
    ∧ state !! context = Some (Text cx) ∧ state !! evaluation = Some (Text e)
    ∧ state !! persona = Some (Text p).
Proof.
  intros Hwf.
  destruct (wellFormed_text state Hwf objective eq_refl) as [o Ho].
  destruct (wellFormed_text state Hwf audience eq_refl) as [a Ha].
  destruct (wellFormed_text state Hwf tone eq_refl) as [t Ht].
  destruct (wellFormed_text state Hwf format eq_refl) as [fm Hfm].
  destruct (wellFormed_tags state Hwf constraints eq_refl) as [c Hc].
  destruct (wellFormed_tags state Hwf inputs eq_refl) as [i Hi].
  destruct (wellFormed_text state Hwf context eq_refl) as [cx Hcx].
  destruct (wellFormed_text state Hwf evaluation eq_refl) as [e He].
  destruct (wellFormed_text state Hwf persona eq_refl) as [p Hp].
  by exists o, a, t, fm, c, i, cx, e, p.
Qed.

Lemma omap_cons_app {A B} (f : A → option B) x l :
  omap f (x :: l) = option_list (f x) ++ omap f l.
Proof. cbn. by destruct (f x). Qed.

(** One conditional push on a text field. *)
Lemma text_step (state : BuilderState) f value (blocks : list jsstring) block :
  state !! f = Some (Text value) →
  (nonempty value = true → spec_block f (Text value) = Some block) →
  (if truthy (state !! f) then push blocks block else blocks)
  = blocks ++ option_list (spec_fieldBlock state f).
Proof.
  intros Hf Hb. unfold spec_fieldBlock. rewrite Hf. cbn [truthy mbind option_bind].
  destruct (nonempty value) eqn:Hv.
  - by rewrite Hb.
  - unfold spec_block, isEmptyValue. rewrite Hv. cbn. by rewrite app_nil_r.
Qed.

(** One conditional push on a tag-list field. *)
Lemma tags_step (state : BuilderState) f items (blocks : list jsstring) (label : jsstring) :
  state !! f = Some (Tags items) →
  label = spec_label f →
  match state !! f with
  | Some (Tags (item :: rest)) => push blocks (label ++ newline ++ bulleted (item :: rest))
  | _ => blocks
  end = blocks ++ option_list (spec_fieldBlock state f).
Proof.
  intros Hf ->. unfold spec_fieldBlock. rewrite Hf. cbn [mbind option_bind].
  destruct items as [| item rest]; [cbn; by rewrite app_nil_r |].
  by rewrite bulleted_spec.
Qed.

Ltac text_push b value H :=
  unfold b; apply (text_step _ _ value); [exact H |]; rewrite H;
  destruct value; [intros Hne; discriminate Hne | reflexivity].

Ltac tags_push b items H :=
  unfold b; apply (tags_step _ _ items); [exact H | reflexivity].

Lemma promptBlocks_spec (state : BuilderState) :
  wellFormed state → promptBlocks state = spec_blocks state.
Proof.
  intros Hwf.
  destruct (wellFormed_fields state Hwf)
    as (o & a & t & fm & c & i & cx & e & p & Ho & Ha & Ht & Hfm & Hc & Hi & Hcx & He & Hp).
  cbv beta delta [promptBlocks].
  do 10 intro_let.
  rename blocks into b0, blocks0 into b1, blocks1 into b2, blocks2 into b3,
    blocks3 into b4, blocks4 into b5, blocks5 into b6, blocks6 into b7,
    blocks7 into b8, blocks8 into b9.
  assert (H1 : b1 = b0 ++ option_list (spec_fieldBlock state persona))
    by text_push b1 p Hp.
  assert (H2 : b2 = b1 ++ option_list (spec_fieldBlock state objective))
    by text_push b2 o Ho.
  assert (H3 : b3 = b2 ++ option_list (spec_fieldBlock state audience))
    by text_push b3 a Ha.
  assert (H4 : b4 = b3 ++ option_list (spec_fieldBlock state context))
    by text_push b4 cx Hcx.
  assert (H5 : b5 = b4 ++ option_list (spec_fieldBlock state inputs))
    by tags_push b5 i Hi.
  assert (H6 : b6 = b5 ++ option_list (spec_fieldBlock state tone))
    by text_push b6 t Ht.
  assert (H7 : b7 = b6 ++ option_list (spec_fieldBlock state format))
    by text_push b7 fm Hfm.
  assert (H8 : b8 = b7 ++ option_list (spec_fieldBlock state constraints))
    by tags_push b8 c Hc.
  assert (H9 : b9 = b8 ++ option_list (spec_fieldBlock state evaluation))
    by text_push b9 e He.
  clearbody b1 b2 b3 b4 b5 b6 b7 b8 b9. subst.
  unfold spec_blocks, spec_order, push. rewrite !omap_cons_app.
  cbn [omap list_omap]. rewrite app_nil_r, <- !app_assoc. reflexivity.
Qed.

(** C1: the blocks of a well-formed state are the blocks of its non-empty
    fields in the order persona, objective, audience, context, inputs, tone,
    format, constraints, evaluation (a tag list as one bulleted line per item,
    in the order of the list), then the closing block; the document is these
    blocks separated by a blank line. *)
Theorem buildPrompt_block_order (state : BuilderState) :
  wellFormed state →
  promptBlocks state = omap (spec_fieldBlock state) spec_order ++ [closingBlock]
  ∧ buildPrompt state = spec_document (spec_blocks state).
Proof.
  intros Hwf. split; [by apply promptBlocks_spec |].
  unfold buildPrompt. by rewrite spec_document_join, promptBlocks_spec.
Qed.

Lemma poemState_wellFormed : wellFormed poemState.
Proof. intros []; vm_compute; reflexivity. Qed.

Lemma buildPrompt_block_order_witness :
  promptBlocks poemState = omap (spec_fieldBlock poemState) spec_order ++ [closingBlock]
  ∧ buildPrompt poemState = spec_document (spec_blocks poemState).
Proof.
  apply (buildPrompt_block_order poemState).
  intros []; vm_compute; reflexivity.
Defined.

Example buildPrompt_poem :
  buildPrompt poemState =
  lit "Tarefa principal:" ++ [10] ++ lit "Write a poem" ++ [10; 10]
  ++ lit "Considere obrigatoriamente:" ++ [10] ++ lit "- a" ++ [10] ++ lit "- b" ++ [10; 10]
  ++ lit "Formato de saída:" ++ [10] ++ lit "4 lines" ++ [10; 10]
  ++ closingBlock.
Proof. vm_compute. reflexivity. Qed.

(** ** The closing block *)

Lemma closingBlock_nonempty : nonempty closingBlock = true.
Proof. vm_compute. reflexivity. Qed.

(** Whatever the state holds, the last push is the closing block. *)
Lemma promptBlocks_closing (state : BuilderState) :
  ∃ blocks, promptBlocks state = blocks ++ [closingBlock].
Proof.
  cbv beta delta [promptBlocks].
  lazymatch goal with
  | |- ∃ blocks, ?lhs = _ =>
      enough (Hlhs : ∃ blocks, blocks ++ [closingBlock] = lhs)
        by (destruct Hlhs as [blocks Hlhs]; by exists blocks)
  end.
  eexists. symmetry. do 10 intro_let. unfold push. reflexivity.
Qed.

Lemma nonempty_app_r (x y : jsstring) : nonempty y = true → nonempty (x ++ y) = true.
Proof. destruct x, y; done. Qed.

Lemma buildPrompt_suffix (state : BuilderState) :
  ∃ before, buildPrompt state = before ++ closingBlock.
Proof.
  destruct (promptBlocks_closing state) as [blocks Hb].
  unfold buildPrompt. rewrite Hb, join_snoc.
  destruct blocks as [| b r]; [by exists [] |].
  exists (join (newline ++ newline) (b :: r) ++ newline ++ newline).
  by rewrite <- !app_assoc.
Qed.

Lemma omap_all_None {A B} (f : A → option B) l :
  (∀ x, f x = None) → omap f l = [].
Proof. intros Hf. induction l as [| x l IH]; [done |]. cbn. by rewrite Hf. Qed.

(** C3: for every state the closing block is the last block and the document
    ends with it, so the document is never empty; when a well-formed state
    emits no conditional block, as the initial state does, the document is
    the closing block alone. *)
Theorem buildPrompt_closing (state : BuilderState) :
  last (promptBlocks state) = Some closingBlock
  ∧ (∃ before, buildPrompt state = before ++ closingBlock)
  ∧ nonempty (buildPrompt state) = true
  ∧ (wellFormed state → (∀ f, spec_fieldBlock state f = None) →
       buildPrompt state = closingBlock)
  ∧ buildPrompt initialState = closingBlock.
Proof.
  split; [| split; [| split; [| split]]].
  - destruct (promptBlocks_closing state) as [blocks ->]. apply last_snoc.
  - apply buildPrompt_suffix.
  - destruct (buildPrompt_suffix state) as [before ->].
    apply nonempty_app_r, closingBlock_nonempty.
  - intros Hwf Hnone. unfold buildPrompt.
    rewrite (promptBlocks_spec state Hwf). unfold spec_blocks.
    by rewrite (omap_all_None _ _ Hnone).
  - vm_compute. reflexivity.
Qed.

Lemma buildPrompt_closing_witness :
  buildPrompt initialState = closingBlock.
Proof.
  refine (proj1 (proj2 (proj2 (proj2 (buildPrompt_closing initialState)))) _ _).
  - intros []; vm_compute; reflexivity.
  - intros []; vm_compute; reflexivity.
Defined.

(** ** Filling in one field *)

Lemma spec_order_NoDup : NoDup spec_order.
Proof. apply (bool_decide_unpack _). vm_compute. reflexivity. Qed.

Lemma spec_order_all f : f ∈ spec_order.
Proof. destruct f; apply (bool_decide_unpack _); vm_compute; reflexivity. Qed.

(** Two block tables that differ at one field, where the first has none. *)
Lemma omap_toggle {B} (h h' : PromptField → option B) (l : list PromptField) f b :
  NoDup l → f ∈ l → h f = None → h' f = Some b →
  (∀ g, g ≠ f → h' g = h g) →
  ∃ l1 l2, omap h l = l1 ++ l2 ∧ omap h' l = l1 ++ b :: l2.
Proof.
  intros Hnd Hin Hf Hf' Hother.
  induction l as [| x l IH]; [by apply elem_of_nil in Hin |].
  apply NoDup_cons in Hnd as [Hx Hnd].
  rewrite !omap_cons_app.
  destruct (decide (x = f)) as [-> | Hne].
  - exists [], (omap h l). rewrite Hf, Hf'. cbn. split; [done |]. f_equal.
    clear IH Hin Hnd. induction l as [| y l IH]; [done |].
    apply not_elem_of_cons in Hx as [Hy Hx].
    rewrite !omap_cons_app, (Hother y) by done. f_equal. by apply IH.
  - apply elem_of_cons in Hin as [-> | Hin]; [done |].
    destruct (IH Hnd Hin) as (l1 & l2 & H1 & H2).
    exists (option_list (h x) ++ l1), l2.
    rewrite (Hother x) by done. rewrite H1, H2. by rewrite <- !app_assoc.
Qed.

(** C7: filling in an empty field of a well-formed state (by a value of the
    field's kind) inserts that field's block and nothing else: the blocks of
    the other fields are the same, in the same order, and every block that
    was present stays. *)
Theorem fill_field_keeps_blocks (state : BuilderState) (f : PromptField) (v : FieldValue) :
  wellFormed state →
  isEmptyValue <$> state !! f = Some true →
  shapeOk f v = true →
  isEmptyValue v = false →
  ∃ before after block,
    spec_block f v = Some block
    ∧ promptBlocks state = before ++ after
    ∧ promptBlocks (<[f := v]> state) = before ++ block :: after
    ∧ (∀ b, b ∈ promptBlocks state → b ∈ promptBlocks (<[f := v]> state))
    ∧ (∀ g, g ≠ f → spec_fieldBlock (<[f := v]> state) g = spec_fieldBlock state g).
Proof.
  intros Hwf Hempty Hshape Hv.
  assert (Hwf' : wellFormed (<[f := v]> state)) by by apply wellFormed_insert.
  assert (Hblock : ∃ block, spec_block f v = Some block).
  { unfold spec_block. rewrite Hv. destruct v, f; by eexists. }
  destruct Hblock as [block Hblock].
  assert (Hf : spec_fieldBlock state f = None).
  { unfold spec_fieldBlock. destruct (state !! f) as [w |]; [| done].
    cbn in *. unfold spec_block. by destruct (isEmptyValue w). }
  assert (Hf' : spec_fieldBlock (<[f := v]> state) f = Some block).
  { unfold spec_fieldBlock. by rewrite lookup_insert_eq. }
  assert (Hother : ∀ g, g ≠ f →
            spec_fieldBlock (<[f := v]> state) g = spec_fieldBlock state g).
  { intros g Hg. unfold spec_fieldBlock. by rewrite lookup_insert_ne. }
  destruct (omap_toggle (spec_fieldBlock state) (spec_fieldBlock (<[f := v]> state))
              spec_order f block spec_order_NoDup (spec_order_all f) Hf Hf' Hother)
    as (l1 & l2 & H1 & H2).
  exists l1, (l2 ++ [closingBlock]), block.
  rewrite (promptBlocks_spec _ Hwf), (promptBlocks_spec _ Hwf').
  unfold spec_blocks. rewrite H1, H2.
  split; [done |]. split; [by rewrite <- app_assoc |].
  split; [by rewrite <- app_assoc |]. split; [| done].
  intros b. rewrite !elem_of_app, !elem_of_cons. tauto.
Qed.

Lemma fill_field_keeps_blocks_witness :
  ∃ before after block,
    spec_block tone (Text (lit "Inspirador")) = Some block
    ∧ promptBlocks poemState = before ++ after
    ∧ promptBlocks (<[tone := Text (lit "Inspirador")]> poemState) = before ++ block :: after
    ∧ (∀ b, b ∈ promptBlocks poemState →
            b ∈ promptBlocks (<[tone := Text (lit "Inspirador")]> poemState))
    ∧ (∀ g, g ≠ tone →
            spec_fieldBlock (<[tone := Text (lit "Inspirador")]> poemState) g
            = spec_fieldBlock poemState g).
Proof.
  apply (fill_field_keeps_blocks poemState tone (Text (lit "Inspirador"))).
  - intros []; vm_compute; reflexivity.
  - vm_compute. reflexivity.
  - vm_compute. reflexivity.
  - vm_compute. reflexivity.
Defined.

(** ** Trimming and splitting *)

Lemma trimStart_clean s : startsClean (trimStart s).
Proof.
  induction s as [| c r IH]; [done |]. simpl.
  destruct (is_space c) eqn:Hc; [done | simpl; by rewrite Hc].
Qed.

Lemma trimStart_id s : startsClean s → trimStart s = s.
Proof. destruct s as [| c r]; [done |]. simpl. by intros ->. Qed.

Lemma trimStart_decompose s :
  ∃ spaces, s = spaces ++ trimStart s ∧ forallb is_space spaces = true.
Proof.
  induction s as [| c r (spaces & Hs & Hall)]; [by exists [] |]. simpl.
  destruct (is_space c) eqn:Hc; [| by exists []].
  exists (c :: spaces). simpl. rewrite Hc, Hall. split; [by f_equal | done].
Qed.

Lemma trimStart_all_space s : forallb is_space s = true → trimStart s = [].
Proof.
  induction s as [| c r IH]; [done |]. simpl.
  destruct (is_space c); [done | discriminate].
Qed.

Lemma startsClean_prefix x y : startsClean (x ++ y) → startsClean x.
Proof. by destruct x. Qed.

Lemma forallb_rev (s : jsstring) :
  forallb is_space (rev s) = forallb is_space s.
Proof.
  induction s as [| c r IH]; [done |]. simpl.
  rewrite forallb_app, IH. simpl. destruct (is_space c), (forallb is_space r); done.
Qed.

(** What [trim] returns is the input without a run of whitespace at each end. *)
Lemma trim_decompose s :
  ∃ front back,
    s = front ++ trim s ++ back
    ∧ forallb is_space front = true ∧ forallb is_space back = true.
Proof.
  destruct (trimStart_decompose s) as (front & Hs & Hfront).
  destruct (trimStart_decompose (rev (trimStart s))) as (back & Hr & Hback).
  exists front, (rev back). unfold trim, trimEnd.
  split; [| split; [done | by rewrite forallb_rev]].
  rewrite <- rev_app_distr, <- Hr, rev_involutive. exact Hs.
Qed.

(** What [trim] returns has no whitespace at either end. *)
Lemma trim_idempotent s : trim (trim s) = trim s.
Proof.
  unfold trim, trimEnd.
  set (t := trimStart s). set (u := trimStart (rev t)).
  assert (Hu : startsClean u) by apply trimStart_clean.
  assert (Ht : startsClean (rev u)).
  { destruct (trimStart_decompose (rev t)) as (back & Hr & _). fold u in Hr.
    apply (startsClean_prefix _ (rev back)).
    rewrite <- rev_app_distr, <- Hr, rev_involutive. apply trimStart_clean. }
  by rewrite (trimStart_id _ Ht), rev_involutive, (trimStart_id _ Hu).
Qed.

Lemma trim_all_space s : forallb is_space s = true → trim s = [].
Proof. intros Hs. unfold trim. by rewrite (trimStart_all_space _ Hs). Qed.

Section Split.

Variable sep : N.

Lemma split_nonempty s : split sep s ≠ [].
Proof.
  destruct s as [| c r]; [done |]. simpl.
  destruct (c =? sep); [done |]. by destruct (split sep r).
Qed.

(** Putting the separator back between the pieces gives the input. *)
Lemma join_split s : join [sep] (split sep s) = s.
Proof.
  induction s as [| c r IH]; [done |]. simpl.
  destruct (N.eqb_spec c sep) as [-> | Hne].
  - pose proof (split_nonempty r) as Hr.
    destruct (split sep r) as [| p ps]; [done |].
    rewrite join_cons, IH. reflexivity.
  - pose proof (split_nonempty r) as Hr.
    destruct (split sep r) as [| p ps]; [done |].
    destruct ps as [| q qs]; rewrite <- IH; reflexivity.
Qed.

(** No piece holds the separator. *)
Lemma split_no_sep s : Forall (λ piece, sep ∉ piece) (split sep s).
Proof.
  induction s as [| c r IH]; [repeat constructor; apply not_elem_of_nil |]. simpl.
  destruct (N.eqb_spec c sep) as [-> | Hne].
  - constructor; [apply not_elem_of_nil | done].
  - pose proof (split_nonempty r) as Hr.
    destruct (split sep r) as [| p ps]; [done |].
    apply Forall_cons in IH as [Hp Hps].
    constructor; [| done]. rewrite not_elem_of_cons. split; [congruence | done].
Qed.

(** The pieces of two strings put together around a separator. *)
Lemma split_app x y : split sep (x ++ sep :: y) = split sep x ++ split sep y.
Proof.
  induction x as [| c r IH]; simpl.
  - by rewrite N.eqb_refl.
  - destruct (c =? sep); [by rewrite IH |].
    rewrite IH. pose proof (split_nonempty r) as Hr.
    by destruct (split sep r).
Qed.

(** A string without the separator is one piece. *)
Lemma split_single s : sep ∉ s → split sep s = [s].
Proof.
  induction s as [| c r IH]; [done |]. rewrite not_elem_of_cons. intros [Hc Hr].
  simpl. destruct (N.eqb_spec c sep) as [-> | _]; [done |]. by rewrite IH.
Qed.

End Split.

(** ** Tag parsing *)

Lemma parseTags_app x y :
  parseTags (x ++ comma :: y) = parseTags x ++ parseTags y.
Proof. unfold parseTags. by rewrite split_app, map_app, List.filter_app. Qed.

Lemma parseTags_single piece :
  comma ∉ piece →
  parseTags piece = if nonempty (trim piece) then [trim piece] else [].
Proof. intros Hp. unfold parseTags. by rewrite split_single. Qed.

Lemma parseTags_tags payload :
  Forall (λ tag, nonempty tag = true ∧ trim tag = tag ∧ comma ∉ tag) (parseTags payload).
Proof.
  unfold parseTags. pose proof (split_no_sep comma payload) as Hsep.
  induction Hsep as [| piece pieces Hpiece _ IH]; [constructor |]. simpl.
  destruct (nonempty (trim piece)) eqn:Hne; [| done].
  constructor; [| done]. split; [done |]. split; [apply trim_idempotent |].
  destruct (trim_decompose piece) as (front & back & Heq & _).
  intros Hin. apply Hpiece. rewrite Heq, !elem_of_app. tauto.
Qed.

(** C6: the tags dispatched for a raw string are its pieces between commas,
    each trimmed of the whitespace at its ends, the empty ones left out, in
    their order and with repetitions kept. *)
Theorem parseTags_policy (payload : jsstring) :
  join [comma] (split comma payload) = payload
  ∧ Forall (λ piece, comma ∉ piece) (split comma payload)
  ∧ parseTags payload = List.filter nonempty (map trim (split comma payload))
  ∧ (∀ piece, ∃ front back,
       piece = front ++ trim piece ++ back
       ∧ forallb is_space front = true ∧ forallb is_space back = true
       ∧ trim (trim piece) = trim piece)
  ∧ Forall (λ tag, nonempty tag = true ∧ trim tag = tag ∧ comma ∉ tag) (parseTags payload)
  ∧ (∀ x y, parseTags (x ++ comma :: y) = parseTags x ++ parseTags y)
  ∧ (∀ piece, comma ∉ piece →
       parseTags piece = if nonempty (trim piece) then [trim piece] else [])
  ∧ parseTags (lit "a, b ,,c") = [lit "a"; lit "b"; lit "c"]
  ∧ parseTags (lit "a, b, a") = [lit "a"; lit "b"; lit "a"]
  ∧ (∀ f state,
       updateTagList f payload state = builderReducer state (updateTags f (parseTags payload))
       ∧ updateTagList f payload state !! f = Some (Tags (parseTags payload))).
Proof.
  split; [apply join_split |]. split; [apply split_no_sep |]. split; [done |].
  split.
  { intros piece. destruct (trim_decompose piece) as (front & back & H1 & H2 & H3).
    exists front, back. by rewrite trim_idempotent. }
  split; [apply parseTags_tags |]. split; [apply parseTags_app |].
  split; [apply parseTags_single |].
  split; [vm_compute; reflexivity |]. split; [vm_compute; reflexivity |].
  intros f state. split; [done |]. apply lookup_insert_eq.
Qed.

(** ** Pending questions *)

Lemma isMissing_trimmed (state : BuilderState) question :
  isMissing state question
  = negb (from_option trimmed_answered false (state !! field question)).
Proof.
  unfold isMissing. destruct (state !! field question) as [[value | items] |]; simpl.
  - by destruct (trim value).
  - by destruct items.
  - done.
Qed.

Lemma pending_spec (state : BuilderState) : pending state = spec_pending state.
Proof.
  unfold pending, spec_pending.
  induction baseQuestions as [| q l IH]; [done |]. cbn.
  rewrite <- isMissing_trimmed.
  destruct (isRequired q); cbn; [| done].
  destruct (isMissing state q); cbn; by rewrite IH.
Qed.

(** C4: the pending list is the descriptor table filtered to the required
    questions whose value is empty once trimmed (or an empty sequence),
    mapped to titles in table order: the objective's title if it is
    unanswered, then the audience's; both at the initial state; none when
    every required question is answered. *)
Theorem pending_required (state : BuilderState) :
  wellFormed state →
  pending state = spec_pending state
  ∧ (∃ o a,
       state !! objective = Some (Text o) ∧ state !! audience = Some (Text a)
       ∧ pending state =
           (if nonempty (trim o) then [] else [lit "Objetivo central"])
           ++ (if nonempty (trim a) then [] else [lit "Público-alvo e nível"]))
  ∧ pending initialState = [lit "Objetivo central"; lit "Público-alvo e nível"]
  ∧ ((∀ question, question ∈ baseQuestions → isRequired question = true →
        from_option trimmed_answered false (state !! field question) = true) →
     pending state = []).
Proof.
  intros Hwf. split; [apply pending_spec |]. split; [| split].
  - destruct (wellFormed_text state Hwf objective eq_refl) as [o Ho].
    destruct (wellFormed_text state Hwf audience eq_refl) as [a Ha].
    exists o, a. split; [done |]. split; [done |].
    unfold pending, baseQuestions. cbn [List.filter isRequired required].
    unfold isMissing. cbn [field]. rewrite Ho, Ha.
    destruct (trim o), (trim a); reflexivity.
  - vm_compute. reflexivity.
  - intros Hall. rewrite pending_spec. unfold spec_pending.
    induction baseQuestions as [| q l IH]; [done |]. cbn.
    destruct (isRequired q) eqn:Hq; cbn.
    + rewrite (Hall q) by (by constructor || done). cbn.
      apply IH. intros q' Hq'. apply Hall. by constructor.
    + apply IH. intros q' Hq'. apply Hall. by constructor.
Qed.

Lemma pending_required_witness :
  pending poemState = spec_pending poemState
  ∧ (∃ o a,
       poemState !! objective = Some (Text o) ∧ poemState !! audience = Some (Text a)
       ∧ pending poemState =
           (if nonempty (trim o) then [] else [lit "Objetivo central"])
           ++ (if nonempty (trim a) then [] else [lit "Público-alvo e nível"]))
  ∧ pending initialState = [lit "Objetivo central"; lit "Público-alvo e nível"]
  ∧ ((∀ question, question ∈ baseQuestions → isRequired question = true →
        from_option trimmed_answered false (poemState !! field question) = true) →
     pending poemState = []).
Proof.
  apply (pending_required poemState).
  intros []; vm_compute; reflexivity.
Defined.

Example pending_poem : pending poemState = [lit "Público-alvo e nível"].
Proof. vm_compute. reflexivity. Qed.

(** ** Insights *)

Lemma insights_spec (state : BuilderState) o fm c e :
  state !! objective = Some (Text o) → state !! format = Some (Text fm) →
  state !! constraints = Some (Tags c) → state !! evaluation = Some (Text e) →
  insights state = spec_insights o fm c e.
Proof.
  intros Ho Hfm Hc He. unfold insights, spec_insights, push.
  rewrite Ho, Hfm, Hc, He. cbn [truthy isEmptyString].
  destruct o as [| o0 o], fm as [| fm0 fm], c as [| c0 c], e as [| e0 e]; reflexivity.
Qed.

(** C5: the insights of a well-formed state are the messages of the rules
    that fire, in the order format, constraints, evaluation: the first when
    the objective is a non-empty string and the format is the empty string,
    the second when there are no constraints, the third when the evaluation
    is the empty string; each of the eight subsets fires at some state. *)
Theorem insights_rules (state : BuilderState) :
  wellFormed state →
  (∃ o fm c e,
      state !! objective = Some (Text o) ∧ state !! format = Some (Text fm)
      ∧ state !! constraints = Some (Tags c) ∧ state !! evaluation = Some (Text e)
      ∧ insights state = spec_insights o fm c e)
  ∧ (∀ b1 b2 b3 : bool, ∃ state',
        wellFormed state'
        ∧ insights state' =
            (if b1 then [formatInsight] else [])
            ++ (if b2 then [constraintsInsight] else [])
            ++ (if b3 then [evaluationInsight] else [])).
Proof.
  intros Hwf. split.
  - destruct (wellFormed_text state Hwf objective eq_refl) as [o Ho].
    destruct (wellFormed_text state Hwf format eq_refl) as [fm Hfm].
    destruct (wellFormed_tags state Hwf constraints eq_refl) as [c Hc].
    destruct (wellFormed_text state Hwf evaluation eq_refl) as [e He].
    exists o, fm, c, e. repeat (split; [done |]).
    by apply insights_spec.
  - intros b1 b2 b3. exists (insightState b1 b2 b3). split.
    + destruct b1, b2, b3; intros []; vm_compute; reflexivity.
    + destruct b1, b2, b3; vm_compute; reflexivity.
Qed.

Lemma insights_rules_witness :
  (∃ o fm c e,
      poemState !! objective = Some (Text o) ∧ poemState !! format = Some (Text fm)
      ∧ poemState !! constraints = Some (Tags c) ∧ poemState !! evaluation = Some (Text e)
      ∧ insights poemState = spec_insights o fm c e)
  ∧ (∀ b1 b2 b3 : bool, ∃ state',
        wellFormed state'
        ∧ insights state' =
            (if b1 then [formatInsight] else [])
            ++ (if b2 then [constraintsInsight] else [])
            ++ (if b3 then [evaluationInsight] else [])).
Proof.
  apply (insights_rules poemState).
  intros []; vm_compute; reflexivity.
Defined.

(** The format insight shows once the objective is set and goes once the
    format is set too. *)
Example insights_poem :
  insights (builderReducer initialState (updateField objective (lit "Write a poem")))
  = [formatInsight; constraintsInsight; evaluationInsight]
  ∧ insights (builderReducer
                (builderReducer initialState (updateField objective (lit "Write a poem")))
                (updateField format (lit "4 lines")))
    = [constraintsInsight; evaluationInsight].
Proof. split; vm_compute; reflexivity. Qed.

(** The format insight looks at the objective as typed: a blank objective
    is enough for it. *)
Example insights_blank_objective :
  insights blankObjectiveState = [formatInsight; constraintsInsight; evaluationInsight].
Proof. vm_compute. reflexivity. Qed.

(** ** Completion *)

Lemma isAnswered_trimmed (state : BuilderState) question :
  isAnswered state question
  = from_option trimmed_answered false (state !! field question).
Proof.
  unfold isAnswered. destruct (state !! field question) as [[value | items] |]; simpl.
  - by destruct (trim value).
  - by destruct items.
  - done.
Qed.

Lemma answeredCount_spec (state : BuilderState) :
  Z.of_nat (answeredCount state) = spec_count trimmed_answered state.
Proof.
  unfold answeredCount, spec_count. do 2 f_equal.
  apply filter_ext. intros q. apply isAnswered_trimmed.
Qed.

Lemma answeredCount_le (state : BuilderState) :
  (answeredCount state ≤ length baseQuestions)%nat.
Proof. apply filter_length_le. Qed.

Lemma baseQuestions_length : length baseQuestions = 9%nat.
Proof. reflexivity. Qed.

(** The binary64 computation [Math.round((a / 9) * 100)] against the exact
    rounding of [100 * a / 9], for each count the table allows. *)
Lemma percent_binary64 (a : nat) :
  (a ≤ 9)%nat →
  Number.round
    (Number.mul (Number.div (Number.ofZ (Z.of_nat a)) (Number.ofZ 9)) (Number.ofZ 100))
  = Number.ofZ (spec_percent (Z.of_nat a) 9).
Proof.
  intros Ha.
  do 10 (destruct a as [| a]; [vm_compute; reflexivity |]). lia.
Qed.

Lemma spec_percent_range (a r : Z) :
  (0 ≤ a ≤ r)%Z → (0 < r)%Z → (0 ≤ spec_percent a r ≤ 100)%Z.
Proof.
  intros Ha Hr. unfold spec_percent. split.
  - apply Z.div_pos; lia.
  - enough ((200 * a + r) / (2 * r) < 101)%Z by lia.
    apply Z.div_lt_upper_bound; lia.
Qed.

Lemma answerCompletion_spec (state : BuilderState) :
  answerCompletion state
  = Number.ofZ (spec_percent (spec_count trimmed_answered state)
                             (Z.of_nat (length baseQuestions))).
Proof.
  unfold answerCompletion. rewrite <- answeredCount_spec, baseQuestions_length.
  apply percent_binary64. pose proof (answeredCount_le state) as Hle.
  by rewrite baseQuestions_length in Hle.
Qed.

(** C2, as amended: for every state the completion percentage is
    [round (100 * A / R)], with [R] the nine fields of the descriptor table
    and [A] the number of fields whose value is a string that is non-empty
    once trimmed or a non-empty sequence; it is an integer from 0 to 100, 0
    at the initial state and 100 when all nine fields are answered. *)
Theorem answerCompletion_percent (state : BuilderState) :
  answerCompletion state
  = Number.ofZ (spec_percent (spec_count trimmed_answered state)
                             (Z.of_nat (length baseQuestions)))
  ∧ length baseQuestions = 9%nat
  ∧ (0 ≤ spec_percent (spec_count trimmed_answered state)
                      (Z.of_nat (length baseQuestions)) ≤ 100)%Z
  ∧ answerCompletion initialState = Number.ofZ 0
  ∧ ((∀ question, question ∈ baseQuestions →
        from_option trimmed_answered false (state !! field question) = true) →
     answerCompletion state = Number.ofZ 100).
Proof.
  split; [apply answerCompletion_spec |]. split; [done |].
  split; [| split].
  - apply spec_percent_range; [| done].
    rewrite <- answeredCount_spec. pose proof (answeredCount_le state). lia.
  - vm_compute. reflexivity.
  - intros Hall. rewrite answerCompletion_spec.
    assert (Hcount : spec_count trimmed_answered state = 9%Z);
      [| rewrite Hcount; vm_compute; reflexivity].
    unfold spec_count.
    assert (Hfilter : ∀ l : list Question, (∀ q, q ∈ l →
              from_option trimmed_answered false (state !! field q) = true) →
              List.filter (λ q, from_option trimmed_answered false (state !! field q)) l = l).
    { induction l as [| q l IH]; [done |]. intros Hl. simpl.
      rewrite (Hl q) by constructor. f_equal. apply IH.
      intros q' Hq'. apply Hl. by constructor. }
    by rewrite Hfilter.
Qed.

Lemma answerCompletion_percent_witness :
  answerCompletion fullState = Number.ofZ 100.
Proof.
  refine (proj2 (proj2 (proj2 (proj2 (answerCompletion_percent fullState)))) _).
  intros question Hq.
  repeat (apply elem_of_cons in Hq as [-> | Hq]; [vm_compute; reflexivity |]).
  by apply elem_of_nil in Hq.
Defined.

Example answerCompletion_poem : answerCompletion poemState = Number.ofZ 33.
Proof. vm_compute. reflexivity. Qed.

(** C2, as stated, fails: a blank objective is a non-empty string, which
    would give [round (100 * 1 / 9) = 11], and the code gives 0. *)
Lemma answerCompletion_blank_objective :
  wellFormed blankObjectiveState
  ∧ spec_count spec_answered blankObjectiveState = 1%Z
  ∧ spec_percent (spec_count spec_answered blankObjectiveState)
                 (Z.of_nat (length baseQuestions)) = 11%Z
  ∧ answerCompletion blankObjectiveState = Number.ofZ 0
  ∧ Number.ofZ 0 ≠ Number.ofZ 11.
Proof.
  split; [intros []; vm_compute; reflexivity |].
  split; [vm_compute; reflexivity |]. split; [vm_compute; reflexivity |].
  split; [vm_compute; reflexivity |]. vm_compute. discriminate.
Qed.

Example answerCompletion_full :
  answerCompletion fullState = Number.ofZ 100 ∧ pending fullState = [].
Proof. split; vm_compute; reflexivity. Qed.

(** ** Blank answers *)

Lemma nonempty_trim_all_space value :
  forallb is_space value = true → nonempty (trim value) = false.
Proof. intros Hs. by rewrite trim_all_space. Qed.

Lemma baseQuestions_title_pending (state : BuilderState) question :
  question ∈ baseQuestions → isRequired question = true →
  isMissing state question = true → title question ∈ pending state.
Proof.
  intros Hq Hreq Hmiss. unfold pending. apply list_elem_of_In, in_map.
  apply filter_In. split; [| done]. apply filter_In. split; [| done].
  by apply list_elem_of_In.
Qed.

(** C10: a text field that holds only whitespace is left out of the
    completion count and is missing for the pending list, and its block is
    still in the document; with a format of one space the completion is 0
    and the document has the format block. *)
Theorem blank_field_counts_unanswered_but_emits
    (state : BuilderState) (question : Question) (value : jsstring) :
  wellFormed state →
  question ∈ baseQuestions →
  state !! field question = Some (Text value) →
  nonempty value = true →
  forallb is_space value = true →
  isAnswered state question = false
  ∧ isMissing state question = true
  ∧ (isRequired question = true → title question ∈ pending state)
  ∧ (∃ block, spec_block (field question) (Text value) = Some block
              ∧ block ∈ promptBlocks state
              ∧ ∃ before after, buildPrompt state = before ++ block ++ after)
  ∧ answerCompletion blankFormatState = Number.ofZ 0
  ∧ promptBlocks blankFormatState
    = [lit "Formato de saída:" ++ newline ++ lit " "; closingBlock].
Proof.
  intros Hwf Hq Hv Hne Hsp.
  assert (Hmiss : isMissing state question = true).
  { rewrite isMissing_trimmed, Hv. simpl. by rewrite nonempty_trim_all_space. }
  split; [rewrite isAnswered_trimmed, Hv; simpl; by apply nonempty_trim_all_space |].
  split; [done |]. split; [intros Hreq; by apply baseQuestions_title_pending |].
  split; [| split; vm_compute; reflexivity].
  assert (Hblock : ∃ block, spec_block (field question) (Text value) = Some block).
  { unfold spec_block, isEmptyValue. rewrite Hne. destruct (field question); by eexists. }
  destruct Hblock as [block Hblock]. exists block. split; [done |].
  assert (Hin : block ∈ promptBlocks state).
  { rewrite (promptBlocks_spec state Hwf). unfold spec_blocks.
    apply elem_of_app. left. apply list_elem_of_omap.
    exists (field question). split; [apply spec_order_all |].
    unfold spec_fieldBlock. by rewrite Hv. }
  split; [done |].
  apply list_elem_of_split in Hin as (l1 & l2 & Hsplit).
  unfold buildPrompt. rewrite Hsplit. clear.
  induction l1 as [| a [| b r] IH].
  - exists []. destruct l2 as [| c l2]; [exists []; by rewrite app_nil_r |].
    by eexists.
  - simpl in *. destruct IH as (before & after & ->).
    exists (a ++ newline ++ newline ++ before), after. by rewrite <- !app_assoc.
  - change (((a :: b :: r) ++ block :: l2)) with (a :: b :: (r ++ block :: l2)).
    rewrite join_cons. change (b :: r ++ block :: l2) with ((b :: r) ++ block :: l2).
    destruct IH as (before & after & ->).
    exists (a ++ (newline ++ newline) ++ before), after. by rewrite <- !app_assoc.
Qed.

Lemma blank_field_counts_unanswered_but_emits_witness :
  ∃ question,
    field question = format
    ∧ isAnswered blankFormatState question = false
    ∧ isMissing blankFormatState question = true
    ∧ ∃ block, spec_block format (Text (lit " ")) = Some block
               ∧ block ∈ promptBlocks blankFormatState.
Proof.
  exists {| id := lit "format";
            title := lit "Formato de saída";
            description := lit "Especifique estrutura, seções obrigatórias, tamanho e formatos de entrega esperados.";
            field := format;
            type := QuestionType.textarea;
            placeholder := Some (lit "Ex.: Sumário executivo com seções: Contexto, Estratégia, Táticas, Métricas. Máx. 800 palavras.");
            options := None;
            required := None |}.
  split; [reflexivity |].
  refine (let H := blank_field_counts_unanswered_but_emits
                     blankFormatState _ (lit " ") _ _ _ _ _ in _).
  - destruct H as (H1 & H2 & _ & (block & Hb & Hin & _) & _).
    split; [exact H1 |]. split; [exact H2 |]. by exists block.
  Unshelve.
  + intros []; vm_compute; reflexivity.
  + do 4 apply list_elem_of_further. apply list_elem_of_here.
  + vm_compute. reflexivity.
  + vm_compute. reflexivity.
  + vm_compute. reflexivity.
Defined.

(** * Further properties *)

(** ** The tags input *)

Lemma trimStart_app z w :
  trimStart (z ++ w) = if forallb is_space z then trimStart w else trimStart z ++ w.
Proof.
  induction z as [| c r IH]; [done |]. simpl.
  destruct (is_space c); [exact IH | done].
Qed.

Lemma trim_cons_space c z : is_space c = true → trim (c :: z) = trim z.
Proof. intros Hc. unfold trim. simpl. by rewrite Hc. Qed.

Lemma trim_snoc_space c z : is_space c = true → trim (z ++ [c]) = trim z.
Proof.
  intros Hc. unfold trim, trimEnd. rewrite trimStart_app.
  destruct (forallb is_space z) eqn:Hz.
  - rewrite (trimStart_all_space z Hz). simpl. by rewrite Hc.
  - rewrite rev_app_distr. simpl. by rewrite Hc.
Qed.

(** A string that ends in a non-space character does not trim to nothing. *)
Lemma trim_snoc_nonspace c z : is_space c = false → nonempty (trim (z ++ [c])) = true.
Proof.
  intros Hc. unfold trim, trimEnd.
  assert (Hy : ∃ y, trimStart (z ++ [c]) = y ++ [c]).
  { rewrite trimStart_app. destruct (forallb is_space z).
    - exists []. simpl. by rewrite Hc.
    - by eexists. }
  destruct Hy as [y ->]. rewrite rev_app_distr. simpl. rewrite Hc.
  simpl. by destruct (rev (rev y)).
Qed.

Lemma space_not_comma c : is_space c = true → (c =? comma) = false.
Proof. intros Hc. destruct (N.eqb_spec c comma) as [-> | Hne]; [discriminate Hc | done]. Qed.

Lemma parseTags_nil : parseTags [] = [].
Proof. reflexivity. Qed.

Lemma parseTags_cons_space c s : is_space c = true → parseTags (c :: s) = parseTags s.
Proof.
  intros Hc. unfold parseTags. simpl. rewrite (space_not_comma c Hc).
  pose proof (split_nonempty comma s) as Hs.
  destruct (split comma s) as [| piece pieces]; [done |].
  simpl. by rewrite (trim_cons_space c piece Hc).
Qed.

(** A string holds no comma, or it has a last one. *)
Lemma last_comma x :
  comma ∉ x ∨ ∃ y z, x = y ++ comma :: z ∧ comma ∉ z.
Proof.
  induction x as [| c r [Hr | (y & z & -> & Hz)]].
  - left. apply not_elem_of_nil.
  - destruct (decide (c = comma)) as [-> | Hc].
    + right. by exists [], r.
    + left. rewrite not_elem_of_cons. by split.
  - right. by exists (c :: y), z.
Qed.

Lemma parseTags_snoc_space c x : is_space c = true → parseTags (x ++ [c]) = parseTags x.
Proof.
  intros Hc.
  assert (Hsingle : ∀ z, comma ∉ z → parseTags (z ++ [c]) = parseTags z).
  { intros z Hz. rewrite !parseTags_single, trim_snoc_space; try done.
    rewrite not_elem_of_app, not_elem_of_cons. split; [done |].
    split; [| apply not_elem_of_nil]. intros <-. discriminate Hc. }
  destruct (last_comma x) as [Hx | (y & z & -> & Hz)]; [by apply Hsingle |].
  rewrite <- app_assoc. change ((comma :: z) ++ [c]) with (comma :: (z ++ [c])).
  by rewrite !parseTags_app, Hsingle.
Qed.

Lemma parseTags_snoc_comma x : parseTags (x ++ [comma]) = parseTags x.
Proof. by rewrite parseTags_app, parseTags_nil, app_nil_r. Qed.

Lemma comma_space : lit ", " = [comma; 32].
Proof. vm_compute. reflexivity. Qed.

Lemma parseTags_join_clean tags :
  Forall cleanTag tags → parseTags (join (lit ", ") tags) = tags.
Proof.
  rewrite comma_space. intros Hclean.
  induction Hclean as [| a rest (Ha1 & Ha2 & Ha3) Hrest IH]; [done |].
  assert (Ha : parseTags a = [a]) by (by rewrite parseTags_single, Ha2, Ha1).
  destruct rest as [| b rest]; [done |].
  rewrite join_cons. change ([comma; 32] ++ ?r) with (comma :: 32 :: r).
  rewrite parseTags_app, Ha, parseTags_cons_space by done. by rewrite IH.
Qed.

Lemma parseTags_clean payload : Forall cleanTag (parseTags payload).
Proof. apply parseTags_tags. Qed.

(** X1: parsing the text the input shows for a list of tags gives the same
    tags exactly when none of them is empty, has whitespace at an end or
    holds a comma. *)
Theorem tagsInput_round_trip (tags : list jsstring) :
  parseTags (tagsInputValue (Some (Tags tags))) = tags ↔ Forall cleanTag tags.
Proof.
  split.
  - intros <-. apply parseTags_clean.
  - apply parseTags_join_clean.
Qed.

Lemma tagsInput_round_trip_witness :
  parseTags (tagsInputValue (Some (Tags [lit "a b"; lit "c"; lit "a b"])))
  = [lit "a b"; lit "c"; lit "a b"].
Proof.
  apply (proj2 (tagsInput_round_trip [lit "a b"; lit "c"; lit "a b"])).
  repeat constructor; try (vm_compute; reflexivity);
    apply (bool_decide_unpack _); vm_compute; reflexivity.
Defined.

(** A tag with a comma in it comes back as two. *)
Example tagsInput_comma_tag :
  parseTags (tagsInputValue (Some (Tags [lit "a,b"]))) = [lit "a"; lit "b"].
Proof. vm_compute. reflexivity. Qed.

(** X2: after [updateTagList], handing the text the input now shows back to
    [updateTagList] changes nothing: the stored tags are a fixed point of
    display and parse. *)
Theorem updateTagList_resubmit (state : BuilderState) (f : PromptField) (payload : jsstring) :
  updateTagList f (tagsInputValue (updateTagList f payload state !! f))
                (updateTagList f payload state)
  = updateTagList f payload state.
Proof.
  unfold updateTagList, builderReducer. rewrite lookup_insert_eq.
  cbn [tagsInputValue]. rewrite (parseTags_join_clean _ (parseTags_clean payload)).
  apply insert_insert_eq.
Qed.

(** X3: a comma or a whitespace character typed at the end of the text the
    input shows is dropped: the state stays as it is, so the input shows the
    text without it. *)
Theorem tagsInput_drops_trailing_separator
    (state : BuilderState) (f : PromptField) (tags : list jsstring) (c : N) :
  state !! f = Some (Tags tags) →
  Forall cleanTag tags →
  c = comma ∨ is_space c = true →
  updateTagList f (tagsInputValue (state !! f) ++ [c]) state = state
  ∧ tagsInputValue (updateTagList f (tagsInputValue (state !! f) ++ [c]) state !! f)
    = tagsInputValue (state !! f).
Proof.
  intros Hf Hclean Hc.
  assert (Hsame : updateTagList f (tagsInputValue (state !! f) ++ [c]) state = state).
  { unfold updateTagList, builderReducer. rewrite Hf. cbn [tagsInputValue].
    assert (Hparse : parseTags (join (lit ", ") tags ++ [c]) = tags).
    { destruct Hc as [-> | Hc].
      - by rewrite parseTags_snoc_comma, parseTags_join_clean.
      - by rewrite parseTags_snoc_space, parseTags_join_clean. }
    rewrite Hparse. by apply insert_id. }
  split; [done |]. by rewrite Hsame.
Qed.

Lemma tagsInput_drops_trailing_separator_witness :
  updateTagList inputs (tagsInputValue (poemState !! inputs) ++ [comma]) poemState = poemState
  ∧ tagsInputValue
      (updateTagList inputs (tagsInputValue (poemState !! inputs) ++ [comma]) poemState !! inputs)
    = tagsInputValue (poemState !! inputs).
Proof.
  apply (tagsInput_drops_trailing_separator poemState inputs [lit "a"; lit "b"] comma).
  - vm_compute. reflexivity.
  - repeat constructor; try (vm_compute; reflexivity);
      apply (bool_decide_unpack _); vm_compute; reflexivity.
  - by left.
Defined.

(** X4: the chips shown for a raw string are the tags [updateTagList] would
    store for it, the empty string included; the chips shown for stored tags
    are the tags. *)
Theorem tagsToDisplay_parse (value : jsstring) (f : PromptField) (state : BuilderState) :
  tagsToDisplay (Text value) = parseTags value
  ∧ tagsToDisplay (Text value) = tagsToDisplay (Tags (parseTags value))
  ∧ (tagsToDisplay <$> updateTagList f value state !! f) = Some (tagsToDisplay (Text value))
  ∧ Forall cleanTag (tagsToDisplay (Text value)).
Proof.
  assert (Hraw : tagsToDisplay (Text value) = parseTags value).
  { unfold tagsToDisplay. by destruct value. }
  split; [done |]. split; [done |]. split.
  - unfold updateTagList, builderReducer. rewrite lookup_insert_eq. simpl.
    by destruct value.
  - rewrite Hraw. apply parseTags_clean.
Qed.

(** ** Required questions *)

Lemma isRequiredMissing_split (state : BuilderState) question :
  isRequiredMissing state question = isRequired question && isMissing state question.
Proof.
  unfold isRequiredMissing, isMissing. f_equal.
  destruct (state !! field question) as [[value | items] |]; [| done | done].
  by destruct (trim value).
Qed.

Lemma filter_filter_andb {A} (P Q : A → bool) l :
  List.filter Q (List.filter P l) = List.filter (λ x, P x && Q x) l.
Proof.
  induction l as [| x l IH]; [done |]. simpl.
  destruct (P x); simpl; [destruct (Q x) |]; by rewrite IH.
Qed.

Lemma baseQuestions_titles_NoDup : NoDup (map title baseQuestions).
Proof. apply (bool_decide_unpack _). vm_compute. reflexivity. Qed.

Lemma baseQuestions_fields_NoDup : NoDup (map field baseQuestions).
Proof. apply (bool_decide_unpack _). vm_compute. reflexivity. Qed.

(** Two entries of a list without repeated keys that share a key are one. *)
Lemma NoDup_map_inj {A B} (key : A → B) (l : list A) x y :
  NoDup (map key l) → x ∈ l → y ∈ l → key x = key y → x = y.
Proof.
  intros Hnd. induction l as [| a l IH]; [by intros ?%elem_of_nil |].
  simpl in Hnd. apply NoDup_cons in Hnd as [Ha Hnd].
  intros [-> | Hx]%elem_of_cons [-> | Hy]%elem_of_cons Heq; [done | | | by apply IH].
  - exfalso. apply Ha. rewrite Heq. by apply (list_elem_of_fmap_2 key).
  - exfalso. apply Ha. rewrite <- Heq. by apply (list_elem_of_fmap_2 key).
Qed.

Lemma NoDup_map_filter {A B} (key : A → B) (P : A → bool) (l : list A) :
  NoDup (map key l) → NoDup (map key (List.filter P l)).
Proof.
  induction l as [| a l IH]; [done |]. simpl. intros [Ha Hnd]%NoDup_cons.
  destruct (P a); [| by apply IH]. simpl. apply NoDup_cons. split; [| by apply IH].
  intros Hin. apply Ha. change (map key ?l') with (key <$> l') in *.
  apply list_elem_of_fmap in Hin as (y & -> & Hy). apply list_elem_of_fmap_2.
  apply list_elem_of_In, filter_In in Hy as [Hy _]. by apply list_elem_of_In.
Qed.

(** X5: the questions with a red border are the questions listed as
    pending: the pending list is the titles of the questions for which
    [isRequiredMissing] holds, and a question's title is listed exactly when
    its border is red. *)
Theorem pending_matches_required_border (state : BuilderState) :
  pending state = map title (List.filter (isRequiredMissing state) baseQuestions)
  ∧ ∀ question, question ∈ baseQuestions →
      (title question ∈ pending state ↔ isRequiredMissing state question = true).
Proof.
  assert (Hpending : pending state
            = map title (List.filter (isRequiredMissing state) baseQuestions)).
  { unfold pending. rewrite filter_filter_andb.
    rewrite (filter_ext _ (isRequiredMissing state)); [done |].
    intros q. symmetry. apply isRequiredMissing_split. }
  split; [done |]. intros q Hq. rewrite Hpending. split.
  - change (map title ?l) with (title <$> l).
    intros (q' & Heq & Hq')%list_elem_of_fmap.
    apply list_elem_of_In, filter_In in Hq' as [Hq' Hred].
    apply list_elem_of_In in Hq'.
    by rewrite (NoDup_map_inj title baseQuestions q q' baseQuestions_titles_NoDup).
  - intros Hred. apply list_elem_of_In, in_map, filter_In.
    split; [by apply list_elem_of_In | done].
Qed.

Lemma isMissing_not_answered (state : BuilderState) question :
  isMissing state question = negb (isAnswered state question).
Proof.
  unfold isMissing, isAnswered.
  destruct (state !! field question) as [[value | items] |]; [| | done].
  - by destruct (trim value).
  - by destruct items.
Qed.

Lemma filter_all_length {A} (P : A → bool) l :
  length (List.filter P l) = length l → ∀ x, x ∈ l → P x = true.
Proof.
  induction l as [| a l IH]; [by intros _ x ?%elem_of_nil |]. simpl.
  pose proof (filter_length_le P l) as Hle.
  destruct (P a) eqn:Ha; simpl; intros Hlen; [| lia].
  intros x [-> | Hx]%elem_of_cons; [done |]. apply IH; [lia | done].
Qed.

Lemma filter_none {A} (P : A → bool) l :
  (∀ x, x ∈ l → P x = false) → List.filter P l = [].
Proof.
  induction l as [| a l IH]; [done |]. intros Hl. simpl.
  rewrite (Hl a) by constructor. apply IH. intros x Hx. apply Hl. by constructor.
Qed.

(** The percentage is 100 for nine answers only. *)
Lemma percent_100_all (a : nat) :
  (a ≤ 9)%nat →
  Number.round
    (Number.mul (Number.div (Number.ofZ (Z.of_nat a)) (Number.ofZ 9)) (Number.ofZ 100))
  = Number.ofZ 100 →
  a = 9%nat.
Proof.
  intros Ha.
  do 9 (destruct a as [| a]; [vm_compute; intros Hx; discriminate Hx |]).
  intros _. lia.
Qed.

(** X6: when the completion reads 100, every question of the table is
    answered and no question is pending. *)
Theorem full_completion_no_pending (state : BuilderState) :
  answerCompletion state = Number.ofZ 100 →
  (∀ question, question ∈ baseQuestions → isAnswered state question = true)
  ∧ pending state = [].
Proof.
  intros Hfull.
  assert (Hall : ∀ question, question ∈ baseQuestions → isAnswered state question = true).
  { apply filter_all_length. fold (answeredCount state).
    rewrite baseQuestions_length. apply percent_100_all; [| exact Hfull].
    pose proof (answeredCount_le state) as Hle. by rewrite baseQuestions_length in Hle. }
  split; [done |]. unfold pending. rewrite filter_filter_andb.
  rewrite filter_none; [done |]. intros q Hq.
  by rewrite isMissing_not_answered, (Hall q Hq), andb_false_r.
Qed.

Lemma full_completion_no_pending_witness :
  (∀ question, question ∈ baseQuestions → isAnswered fullState question = true)
  ∧ pending fullState = [].
Proof.
  apply (full_completion_no_pending fullState).
  vm_compute. reflexivity.
Defined.

(** ** Progress *)

(** Two predicates that differ at one key of a list without repeated keys. *)
Lemma filter_length_flip {A B} (key : A → B) (P P' : A → bool) (l : list A) x :
  NoDup (map key l) → x ∈ l → P x = false → P' x = true →
  (∀ y, key y ≠ key x → P' y = P y) →
  length (List.filter P' l) = S (length (List.filter P l)).
Proof.
  intros Hnd Hx HP HP' Hother.
  induction l as [| a l IH]; [by apply elem_of_nil in Hx |].
  simpl in Hnd. apply NoDup_cons in Hnd as [Ha Hnd].
  assert (Hkeys : ∀ y, y ∈ l → key y ≠ key a).
  { intros y Hy Heq. apply Ha. rewrite <- Heq. by apply (list_elem_of_fmap_2 key). }
  apply elem_of_cons in Hx as [-> | Hx]; simpl.
  - rewrite HP, HP'. simpl. do 2 f_equal. apply filter_ext_in.
    intros y Hy. apply Hother, Hkeys. by apply list_elem_of_In.
  - rewrite (Hother a) by (intros Heq; by apply (Hkeys x Hx)).
    destruct (P a); simpl; by rewrite IH.
Qed.

Lemma spec_percent_step (n : Z) :
  (0 ≤ n < 9)%Z → (spec_percent n 9 < spec_percent (n + 1) 9)%Z.
Proof.
  intros Hn.
  assert (Hcases : (n = 0 ∨ n = 1 ∨ n = 2 ∨ n = 3 ∨ n = 4 ∨ n = 5
                    ∨ n = 6 ∨ n = 7 ∨ n = 8)%Z) by lia.
  repeat (destruct Hcases as [-> | Hcases]; [vm_compute; reflexivity |]).
  subst n. vm_compute. reflexivity.
Qed.

(** X7: answering a question that was not answered (a text that does not
    trim to nothing, or a non-empty list) moves the completion up: the count
    of answered questions grows by one and the percentage strictly. *)
Theorem answering_raises_completion
    (state : BuilderState) (question : Question) (v : FieldValue) :
  question ∈ baseQuestions →
  isAnswered state question = false →
  trimmed_answered v = true →
  ∃ n : Z,
    (0 ≤ n < 9)%Z
    ∧ Z.of_nat (answeredCount state) = n
    ∧ Z.of_nat (answeredCount (<[field question := v]> state)) = (n + 1)%Z
    ∧ answerCompletion state = Number.ofZ (spec_percent n 9)
    ∧ answerCompletion (<[field question := v]> state) = Number.ofZ (spec_percent (n + 1) 9)
    ∧ (spec_percent n 9 < spec_percent (n + 1) 9)%Z.
Proof.
  intros Hq Hno Hv.
  assert (Hcount : answeredCount (<[field question := v]> state) = S (answeredCount state)).
  { unfold answeredCount.
    apply (filter_length_flip field _ _ _ question baseQuestions_fields_NoDup Hq Hno).
    - by rewrite isAnswered_trimmed, lookup_insert_eq.
    - intros y Hy. unfold isAnswered. by rewrite lookup_insert_ne. }
  pose proof (answeredCount_le (<[field question := v]> state)) as Hle.
  rewrite baseQuestions_length, Hcount in Hle.
  exists (Z.of_nat (answeredCount state)).
  split; [lia |]. split; [done |]. split; [lia |].
  rewrite !answerCompletion_spec, <- !answeredCount_spec, baseQuestions_length, Hcount.
  split; [done |]. split; [do 2 f_equal; lia |]. apply spec_percent_step. lia.
Qed.

Lemma answering_raises_completion_witness :
  ∃ n : Z,
    (0 ≤ n < 9)%Z
    ∧ Z.of_nat (answeredCount poemState) = n
    ∧ Z.of_nat (answeredCount (<[tone := Text (lit "Inspirador")]> poemState)) = (n + 1)%Z
    ∧ answerCompletion poemState = Number.ofZ (spec_percent n 9)
    ∧ answerCompletion (<[tone := Text (lit "Inspirador")]> poemState)
      = Number.ofZ (spec_percent (n + 1) 9)
    ∧ (spec_percent n 9 < spec_percent (n + 1) 9)%Z.
Proof.
  apply (answering_raises_completion poemState
           {| id := lit "tone";
              title := lit "Tom e estilo desejados";
              description := lit "Determine o estilo de comunicação, referências e formatos de escrita preferidos.";
              field := tone;
              type := QuestionType.textarea;
              placeholder := Some (lit "Ex.: Inspirador, direto, com exemplos práticos e analogias relevantes.");
              options := None;
              required := None |}
           (Text (lit "Inspirador"))).
  - do 3 apply list_elem_of_further. apply list_elem_of_here.
  - vm_compute. reflexivity.
  - vm_compute. reflexivity.
Defined.

(** ** The preview panel *)

Lemma closingBlock_full_stop : ∃ body, closingBlock = body ++ [46].
Proof. exists (removelast closingBlock). vm_compute. reflexivity. Qed.

(** X8: the generated prompt never trims to the empty string, so the copy
    button is never disabled and the preview never falls back to its
    placeholder text. *)
Theorem preview_never_empty (state : BuilderState) :
  nonempty (trim (buildPrompt state)) = true
  ∧ copyDisabled state = false
  ∧ previewText state = buildPrompt state.
Proof.
  assert (Htrim : nonempty (trim (buildPrompt state)) = true).
  { destruct (buildPrompt_suffix state) as [before ->].
    destruct closingBlock_full_stop as [body ->].
    rewrite app_assoc. by apply trim_snoc_nonspace. }
  split; [done |]. split; [unfold copyDisabled; cbv zeta; by rewrite Htrim |].
  unfold previewText. cbv zeta.
  destruct (buildPrompt_suffix state) as [before Hdoc].
  assert (Hne : nonempty (buildPrompt state) = true)
    by (rewrite Hdoc; apply nonempty_app_r, closingBlock_nonempty).
  by rewrite Hne.
Qed.

(** ** Sequences of actions *)

(** X9: an action overrides an earlier action on the same field, and a reset
    overrides any earlier action: only the later one shows in the state. In
    particular an action dispatched twice acts once, and a text input shows
    the text typed last. *)
Theorem builderReducer_last_wins (state : BuilderState) (earlier later : Action) :
  target later = None ∨ target earlier = target later →
  builderReducer (builderReducer state earlier) later = builderReducer state later
  ∧ builderReducer (builderReducer state later) later = builderReducer state later
  ∧ (∀ f value, later = updateField f value →
       textInputValue (builderReducer (builderReducer state earlier) later !! f) = value).
Proof.
  intros Htarget. split; [| split].
  - destruct later as [f v | f t | p]; [| | done];
      (destruct Htarget as [Hnone | Hsame]; [discriminate Hnone |]);
      destruct earlier as [f' v' | f' t' | p']; simpl in *;
      try discriminate Hsame; injection Hsame as ->; apply insert_insert_eq.
  - destruct later as [f v | f t | p]; [| | done]; apply insert_insert_eq.
  - intros f value ->. simpl. by rewrite lookup_insert_eq.
Qed.

Lemma builderReducer_last_wins_witness :
  builderReducer
    (builderReducer initialState (updateTags objective [lit "x"]))
    (updateField objective (lit "Write a poem"))
  = builderReducer initialState (updateField objective (lit "Write a poem")).
Proof.
  refine (proj1 (builderReducer_last_wins initialState
                   (updateTags objective [lit "x"])
                   (updateField objective (lit "Write a poem")) _)).
  right. reflexivity.
Defined.

(** X10: set actions on two different fields can be dispatched in either
    order. *)
Theorem builderReducer_commute (state : BuilderState) (a1 a2 : Action) f1 f2 :
  target a1 = Some f1 →
  target a2 = Some f2 →
  f1 ≠ f2 →
  builderReducer (builderReducer state a1) a2 = builderReducer (builderReducer state a2) a1.
Proof.
  intros H1 H2 Hne.
  destruct a1 as [g1 v1 | g1 t1 | p1]; [| | discriminate H1];
    (destruct a2 as [g2 v2 | g2 t2 | p2]; [| | discriminate H2]);
    simpl in *; injection H1 as ->; injection H2 as ->;
    by apply insert_insert_ne.
Qed.

Lemma builderReducer_commute_witness :
  builderReducer
    (builderReducer initialState (updateField objective (lit "Write a poem")))
    (updateTags inputs [lit "a"; lit "b"])
  = builderReducer
      (builderReducer initialState (updateTags inputs [lit "a"; lit "b"]))
      (updateField objective (lit "Write a poem")).
Proof.
  apply (builderReducer_commute initialState
           (updateField objective (lit "Write a poem"))
           (updateTags inputs [lit "a"; lit "b"]) objective inputs).
  - reflexivity.
  - reflexivity.
  - discriminate.
Defined.

(** A reset does not commute with a set action. *)
Example builderReducer_reset_order :
  builderReducer (builderReducer initialState (reset initialState))
                 (updateField objective (lit "x")) !! objective = Some (Text (lit "x"))
  ∧ builderReducer (builderReducer initialState (updateField objective (lit "x")))
                   (reset initialState) !! objective = Some (Text []).
Proof. split; vm_compute; reflexivity. Qed.

(** ** List keys *)

Lemma insights_messages_NoDup :
  NoDup [formatInsight; constraintsInsight; evaluationInsight].
Proof. apply (bool_decide_unpack _). vm_compute. reflexivity. Qed.

(** Whatever the state holds, the insights are the three messages with some
    left out. *)
Lemma insights_sublist (state : BuilderState) :
  insights state `sublist_of` [formatInsight; constraintsInsight; evaluationInsight].
Proof.
  unfold insights, push.
  generalize formatInsight constraintsInsight evaluationInsight. intros m1 m2 m3.
  destruct (truthy (state !! objective) && isEmptyString (state !! format));
    destruct (state !! constraints) as [[value | [| item items]] |];
    destruct (isEmptyString (state !! evaluation)); cbn [app];
    repeat first [ apply sublist_nil | apply sublist_skip | apply sublist_cons ].
Qed.

(** X11: neither the pending list nor the insight list repeats an entry, in
    any state, so each entry is a list key of its own; there are at most two
    pending titles and three insights. *)
Theorem pending_insights_NoDup (state : BuilderState) :
  NoDup (pending state) ∧ NoDup (insights state)
  ∧ (length (pending state) ≤ 2)%nat ∧ (length (insights state) ≤ 3)%nat.
Proof.
  split; [| split; [| split]].
  - unfold pending. do 2 apply NoDup_map_filter. apply baseQuestions_titles_NoDup.
  - apply (sublist_NoDup _ _ insights_messages_NoDup (insights_sublist state)).
  - unfold pending. rewrite length_map.
    etransitivity; [apply filter_length_le |]. by vm_compute.
  - apply (sublist_length _ _ (insights_sublist state)).
Qed.

(** ** Insights and the prompt *)

Lemma insights_messages_distinct :
  formatInsight ≠ constraintsInsight
  ∧ formatInsight ≠ evaluationInsight
  ∧ constraintsInsight ≠ evaluationInsight.
Proof. repeat split; intros Heq; vm_compute in Heq; discriminate Heq. Qed.

Lemma length_omap_le {A B} (f : A → option B) l : (length (omap f l) ≤ length l)%nat.
Proof. induction l as [| x l IH]; [done |]. cbn. destruct (f x); simpl; lia. Qed.

Lemma omap_full_length {A B} (f : A → option B) l :
  length (omap f l) = length l → ∀ x, x ∈ l → is_Some (f x).
Proof.
  induction l as [| a l IH]; [by intros _ x ?%elem_of_nil |]. cbn.
  pose proof (length_omap_le f l) as Hle.
  destruct (f a) as [b |] eqn:Ha; simpl; intros Hlen; [| lia].
  intros x [-> | Hx]%elem_of_cons; [by eexists |]. apply IH; [lia | done].
Qed.

Lemma spec_insights_elem o fm c e :
  (formatInsight ∈ spec_insights o fm c e ↔ nonempty o = true ∧ nonempty fm = false)
  ∧ (constraintsInsight ∈ spec_insights o fm c e ↔ c = [])
  ∧ (evaluationInsight ∈ spec_insights o fm c e ↔ nonempty e = false).
Proof.
  unfold spec_insights.
  destruct insights_messages_distinct as (H12 & H13 & H23). revert H12 H13 H23.
  generalize formatInsight constraintsInsight evaluationInsight. intros m1 m2 m3 H12 H13 H23.
  destruct o as [| o0 o], fm as [| fm0 fm], c as [| c0 c], e as [| e0 e]; cbn;
    rewrite ?bool_decide_eq_true_2 by done; rewrite ?bool_decide_eq_false_2 by done;
    cbn; rewrite ?elem_of_cons, ?elem_of_nil; intuition congruence.
Qed.

(** X12: in a well-formed state an insight is shown exactly for a block the
    prompt lacks: the format insight when the objective block is emitted and
    the format block is not, the constraints insight when there is no
    constraints block, the evaluation insight when there is no evaluation
    block; a prompt with all ten blocks comes with no insight. *)
Theorem insights_name_missing_blocks (state : BuilderState) :
  wellFormed state →
  (formatInsight ∈ insights state
     ↔ truthy (state !! objective) = true ∧ truthy (state !! format) = false)
  ∧ (constraintsInsight ∈ insights state ↔ state !! constraints = Some (Tags []))
  ∧ (evaluationInsight ∈ insights state ↔ truthy (state !! evaluation) = false)
  ∧ (length (promptBlocks state) = 10%nat → insights state = []).
Proof.
  intros Hwf.
  destruct (wellFormed_fields state Hwf)
    as (o & a & t & fm & c & i & cx & e & p & Ho & Ha & Ht & Hfm & Hc & Hi & Hcx & He & Hp).
  rewrite (insights_spec state o fm c e Ho Hfm Hc He).
  destruct (spec_insights_elem o fm c e) as (H1 & H2 & H3).
  rewrite Ho, Hfm, Hc, He. cbn [truthy].
  split; [done |]. split; [rewrite H2; split; [by intros -> | by intros [= ->]] |].
  split; [done |].
  rewrite (promptBlocks_spec state Hwf). unfold spec_blocks.
  rewrite length_app. change (length [closingBlock]) with 1%nat. intros Hlen.
  assert (Hall : ∀ f, is_Some (spec_fieldBlock state f)).
  { intros f. apply (omap_full_length _ spec_order); [| apply spec_order_all].
    change (length spec_order) with 9%nat. lia. }
  pose proof (Hall format) as [bf Hbf]. pose proof (Hall constraints) as [bc Hbc].
  pose proof (Hall evaluation) as [be Hbe].
  unfold spec_fieldBlock in Hbf, Hbc, Hbe. rewrite Hfm in Hbf. rewrite Hc in Hbc.
  rewrite He in Hbe. unfold spec_insights.
  destruct fm; [discriminate Hbf |]. destruct c; [discriminate Hbc |].
  destruct e; [discriminate Hbe |]. cbn. by rewrite andb_false_r.
Qed.

Lemma insights_name_missing_blocks_witness :
  (formatInsight ∈ insights fullState
     ↔ truthy (fullState !! objective) = true ∧ truthy (fullState !! format) = false)
  ∧ (constraintsInsight ∈ insights fullState ↔ fullState !! constraints = Some (Tags []))
  ∧ (evaluationInsight ∈ insights fullState ↔ truthy (fullState !! evaluation) = false)
  ∧ (length (promptBlocks fullState) = 10%nat → insights fullState = []).
Proof.
  apply (insights_name_missing_blocks fullState).
  intros []; vm_compute; reflexivity.
Defined.

(** ** Answers in the prompt *)

Lemma join_infix sep (blocks : list jsstring) block :
  block ∈ blocks → ∃ before after, join sep blocks = before ++ block ++ after.
Proof.
  induction blocks as [| a [| b r] IH].
  - by intros ?%elem_of_nil.
  - intros ->%list_elem_of_singleton. exists [], []. by rewrite app_nil_r.
  - rewrite join_cons. intros [-> | Hin]%elem_of_cons.
    + by exists [], (sep ++ join sep (b :: r)).
    + destruct (IH Hin) as (before & after & ->).
      exists (a ++ sep ++ before), after. by rewrite <- !app_assoc.
Qed.

Lemma promptBlocks_field_block (state : BuilderState) f v block :
  wellFormed state → state !! f = Some v → spec_block f v = Some block →
  ∃ before after, buildPrompt state = before ++ block ++ after.
Proof.
  intros Hwf Hf Hblock. apply join_infix.
  rewrite (promptBlocks_spec state Hwf). unfold spec_blocks.
  apply elem_of_app. left. apply list_elem_of_omap.
  exists f. split; [apply spec_order_all |]. unfold spec_fieldBlock. by rewrite Hf.
Qed.

(** X13: in a well-formed state every non-empty text answer stands in the
    prompt as it was typed, and every item of a tag list stands in it after
    a dash and a space. *)
Theorem answers_stand_in_prompt (state : BuilderState) (f : PromptField) :
  wellFormed state →
  (∀ value, state !! f = Some (Text value) → nonempty value = true →
     ∃ before after, buildPrompt state = before ++ value ++ after)
  ∧ (∀ items item, state !! f = Some (Tags items) → item ∈ items →
       ∃ before after, buildPrompt state = before ++ (lit "- " ++ item) ++ after).
Proof.
  intros Hwf. split.
  - intros value Hf Hne.
    assert (Hblock : ∃ x y, spec_block f (Text value) = Some (x ++ value ++ y)).
    { unfold spec_block, isEmptyValue. rewrite Hne. simpl.
      destruct f;
        first [ by exists (spec_label persona), (lit ".")
              | eexists (_ ++ newline), []; by rewrite app_nil_r, <- app_assoc ]. }
    destruct Hblock as (x & y & Hblock).
    destruct (promptBlocks_field_block state f _ _ Hwf Hf Hblock) as (before & after & ->).
    exists (before ++ x), (y ++ after). by rewrite <- !app_assoc.
  - intros items item Hf Hin.
    assert (Hblock : ∃ x y, spec_block f (Tags items) = Some (x ++ (lit "- " ++ item) ++ y)).
    { unfold spec_block, isEmptyValue.
      destruct items as [| item0 items0] eqn:Hitems; [by apply elem_of_nil in Hin |].
      rewrite <- Hitems in *. rewrite <- bulleted_spec.
      destruct (join_infix newline (map (λ item, lit "- " ++ item) items) (lit "- " ++ item))
        as (x & y & Hjoin).
      { change (map ?g items) with (g <$> items).
        by apply (list_elem_of_fmap_2 (λ item, lit "- " ++ item)). }
      unfold bulleted. rewrite Hjoin.
      exists (spec_label f ++ newline ++ x), y. by rewrite <- !app_assoc. }
    destruct Hblock as (x & y & Hblock).
    destruct (promptBlocks_field_block state f _ _ Hwf Hf Hblock) as (before & after & ->).
    exists (before ++ x), (y ++ after). by rewrite <- !app_assoc.
Qed.

Lemma answers_stand_in_prompt_witness :
  (∀ value, poemState !! inputs = Some (Text value) → nonempty value = true →
     ∃ before after, buildPrompt poemState = before ++ value ++ after)
  ∧ (∀ items item, poemState !! inputs = Some (Tags items) → item ∈ items →
       ∃ before after, buildPrompt poemState = before ++ (lit "- " ++ item) ++ after).
Proof.
  apply (answers_stand_in_prompt poemState inputs).
  intros []; vm_compute; reflexivity.
Defined.
